(** * fal_upload_wrapper: the upload record store and its dedup engine

    A shallow embedding of [fal_upload_db.py] (class [FalUploadDB]) and of
    [fal_upload_wrapper.py], followed by the properties of the record
    store, the identity resolver, the liveness verifier and the
    maintenance sweep.

    Conventions of the embedding.
    - The SQLite table [uploads] is a list of rows in rowid order; every
      SQL statement of the source is one pure function on that list.
    - Python evaluation is a state-and-exception monad over a [World]:
      the table, the file system, the output printed so far and a logical
      instant that advances at every observation of the outside world.
    - Everything the program cannot decide itself (the HTTP answer to a
      HEAD request, the two clocks, SHA-256, the uploader subprocess, a
      failing INSERT, the JSON parser) is an oracle of the environment
      [Env], indexed by the instant at which it is consulted.
    - Timestamps are integers: [CURRENT_TIMESTAMP] counts whole seconds
      and [datetime.now()] microseconds; the fixed-width texts the source
      stores compare exactly as these numbers do. *)

From Stdlib Require Import ZArith List String Ascii Bool Lia PeanoNat.
From Stdlib Require Import Sorted Permutation.
From Stdlib Require Import Init.Byte.
Import ListNotations.

Local Open Scope string_scope.
Local Open Scope Z_scope.

(** ** Python exceptions *)

Inductive exn : Type :=
| RequestTimeout          (* requests.exceptions.Timeout *)
| ConnectionError         (* requests.exceptions.ConnectionError *)
| TooManyRedirects        (* requests.exceptions.TooManyRedirects *)
| InvalidURL              (* requests: malformed URL, missing schema *)
| OperationalError        (* sqlite3.OperationalError *)
| IntegrityError          (* sqlite3.IntegrityError *)
| OSError                 (* open, stat *)
| JSONDecodeError         (* json.load *)
| KeyboardInterrupt.      (* a BaseException that is not an Exception *)

(** [except Exception] catches every class above but [KeyboardInterrupt];
    a bare [except:] catches all of them. *)
Definition is_Exception (e : exn) : bool :=
  match e with
  | KeyboardInterrupt => false
  | _ => true
  end.

Definition any_exception (e : exn) : bool := true.

Inductive Exc (A : Type) : Type :=
| Returned (a : A)
| Raised (e : exn).
Arguments Returned {A} a.
Arguments Raised {A} e.

(** ** The table [uploads] *)

Record Row : Type := mkRow {
  id : Z;
  filename : string;
  url : string;
  file_path : option string;
  file_size : option Z;
  file_hash : option string;
  upload_date : Z;
  last_verified : option Z;
  is_valid : Z;
  metadata : option string;
  created_at : Z;
  updated_at : Z
}.

(** ** The file system, the printed output and the world *)

Record File : Type := mkFile {
  st_size : option Z;              (* None: os.path.getsize raises *)
  content : option (list byte)     (* None: the file cannot be read *)
}.

Inductive Msg : Type :=
| ErrFileNotFound (path : string)
| ErrScriptNotFound
| InfoDupCheck (name : string)
| InfoSameContent (name : string)
| SuccessAlreadyRegistered (name existing_url : string)
| InfoForceUpload
| UseExisting (existing_url : string)
| InfoTarget (path : string) (size : Z)
| InfoRunning
| UploadSucceeded (uploaded_url : string)
| InfoRegistering (name uploaded_url : string)
| SuccessRegistered (record_id : Z)
| WarningRegisterFailed (e : exn)
| MigrationError (e : exn).

(** One verdict of the liveness verifier about one record.  The history
    of verdicts is specification state: the source keeps no such list. *)
Record ProbeEvent : Type := mkProbe {
  probed_id : Z;
  probed_url : string;
  verdict : bool
}.

Record World : Type := mkWorld {
  uploads : list Row;
  sqlite_sequence : Z;             (* AUTOINCREMENT high-water mark *)
  fs : string -> option File;
  instant : nat;
  probe_log : list ProbeEvent;     (* newest first *)
  stdout : list Msg                (* newest first *)
}.

(** The oracles.  [http_head n u t] is the outcome of the HEAD request
    sent to [u] at instant [n] with timeout [t]: the status code of the
    final response or the exception raised.  [insert_fault n] is the error,
    if any, with which an INSERT executed at instant [n] fails.
    [uploader n p] is what [run_local_fal_upload] extracts from the
    uploader run at instant [n] on [p].  [json_load] parses the legacy
    document into its items, file name and URL, both strings. *)
Record Env : Type := mkEnv {
  http_head : nat -> string -> Z -> Exc Z;
  current_timestamp : nat -> Z;
  datetime_now : nat -> Z;
  sha256_hexdigest : list byte -> string;
  insert_fault : nat -> option exn;
  uploader : nat -> string -> option string;
  json_load : list byte -> Exc (list (string * string))
}.

(** ** The evaluation monad *)

Definition M (A : Type) : Type := World -> Exc A * World.

Definition ret {A : Type} (a : A) : M A := fun w => (Returned a, w).

Definition bind {A B : Type} (m : M A) (k : A -> M B) : M B :=
  fun w =>
    match m w with
    | (Returned a, w') => k a w'
    | (Raised e, w') => (Raised e, w')
    end.

Definition raise {A : Type} (e : exn) : M A := fun w => (Raised e, w).

(** [try: body / except <catches> as e: handler e] *)
Definition try_except {A : Type} (body : M A) (catches : exn -> bool)
    (handler : exn -> M A) : M A :=
  fun w =>
    match body w with
    | (Returned a, w') => (Returned a, w')
    | (Raised e, w') => if catches e then handler e w' else (Raised e, w')
    end.

Declare Scope py_scope.
Delimit Scope py_scope with py.
Notation "x <- c ;; k" := (bind c (fun x => k))
  (at level 61, c at next level, right associativity) : py_scope.
Notation "c ;; k" := (bind c (fun _ => k))
  (at level 61, right associativity) : py_scope.
Local Open Scope py_scope.

Definition get_world : M World := fun w => (Returned w, w).

Definition set_uploads (t : list Row) : M unit :=
  fun w => (Returned tt,
            mkWorld t (sqlite_sequence w) (fs w) (instant w)
                    (probe_log w) (stdout w)).

Definition set_sqlite_sequence (s : Z) : M unit :=
  fun w => (Returned tt,
            mkWorld (uploads w) s (fs w) (instant w) (probe_log w) (stdout w)).

(** Reads the logical instant and moves to the next one. *)
Definition tick : M nat :=
  fun w => (Returned (instant w),
            mkWorld (uploads w) (sqlite_sequence w) (fs w) (S (instant w))
                    (probe_log w) (stdout w)).

Definition print (m : Msg) : M unit :=
  fun w => (Returned tt,
            mkWorld (uploads w) (sqlite_sequence w) (fs w) (instant w)
                    (probe_log w) (m :: stdout w)).

Definition note_probe (ev : ProbeEvent) : M unit :=
  fun w => (Returned tt,
            mkWorld (uploads w) (sqlite_sequence w) (fs w) (instant w)
                    (ev :: probe_log w) (stdout w)).

(** ** Strings and paths *)

Fixpoint has_slash (s : string) : bool :=
  match s with
  | EmptyString => false
  | String c rest => Ascii.eqb c "/" || has_slash rest
  end.

(** [os.path.basename] of posixpath: what follows the last slash. *)
Fixpoint basename (p : string) : string :=
  match p with
  | EmptyString => EmptyString
  | String c rest =>
      if has_slash rest then basename rest
      else if Ascii.eqb c "/" then rest else p
  end.

(** Truth value of a Python [str]. *)
Definition truthy (s : string) : bool := negb (String.eqb s "").

Definition to_lower (c : ascii) : ascii :=
  let n := nat_of_ascii c in
  if (Nat.leb 65 n && Nat.leb n 90)%bool then ascii_of_nat (n + 32)%nat else c.

(** SQLite's [LIKE]: [%] is any run of characters, [_] any one character,
    ASCII letters compare without case. *)
Fixpoint like (pattern : string) : string -> bool :=
  match pattern with
  | EmptyString => fun text => String.eqb text ""
  | String p rest =>
      if Ascii.eqb p "%" then
        fix skip (text : string) : bool :=
          like rest text ||
          match text with
          | EmptyString => false
          | String _ text' => skip text'
          end
      else if Ascii.eqb p "_" then
        fun text =>
          match text with
          | EmptyString => false
          | String _ text' => like rest text'
          end
      else
        fun text =>
          match text with
          | EmptyString => false
          | String c text' =>
              Ascii.eqb (to_lower p) (to_lower c) && like rest text'
          end
  end.

Definition like_opt (pattern : string) (text : option string) : bool :=
  match text with
  | None => false                  (* NULL LIKE ? is NULL *)
  | Some s => like pattern s
  end.

(** ** SQL statements of the source, as functions on the table *)

Module Sql.

(** [ORDER BY created_at DESC LIMIT 1].  SQLite keeps the row already
    held when the next one scanned has an equal key, so among rows with
    the greatest [created_at] the first in rowid order is returned. *)
Fixpoint order_by_created_at_desc_limit_1 (rows : list Row) : option Row :=
  match rows with
  | [] => None
  | r :: rest =>
      match order_by_created_at_desc_limit_1 rest with
      | None => Some r
      | Some r' => if created_at r <? created_at r' then Some r' else Some r
      end
  end.

(** [WHERE is_valid = 1] *)
Definition valid (r : Row) : bool := is_valid r =? 1.

(** [WHERE filename = ?] and [WHERE file_hash = ?] (NULL matches nothing) *)
Definition filename_is (name : string) (r : Row) : bool :=
  String.eqb (filename r) name.

Definition file_hash_is (h : string) (r : Row) : bool :=
  match file_hash r with
  | Some h' => String.eqb h' h
  | None => false
  end.

(** [SELECT * FROM uploads WHERE <key> AND is_valid = 1
     ORDER BY created_at DESC LIMIT 1] *)
Definition select_latest_valid (key : Row -> bool) (t : list Row)
  : option Row :=
  order_by_created_at_desc_limit_1 (filter (fun r => key r && valid r) t).

(** [LIMIT n]: a negative bound means no bound. *)
Definition limit {A : Type} (n : Z) (l : list A) : list A :=
  if n <? 0 then l else firstn (Z.to_nat n) l.

(** [UPDATE uploads SET is_valid = 0, updated_at = <ts> WHERE id = ?] *)
Definition set_invalid (ts : Z) (r : Row) : Row :=
  mkRow (id r) (filename r) (url r) (file_path r) (file_size r)
        (file_hash r) (upload_date r) (last_verified r) 0 (metadata r)
        (created_at r) ts.

Definition update_invalidate (rid ts : Z) (t : list Row) : list Row :=
  map (fun r => if id r =? rid then set_invalid ts r else r) t.

(** [UPDATE uploads SET last_verified = <now>, updated_at = <ts>
     WHERE id = ?] *)
Definition set_verified (now ts : Z) (r : Row) : Row :=
  mkRow (id r) (filename r) (url r) (file_path r) (file_size r)
        (file_hash r) (upload_date r) (Some now) (is_valid r) (metadata r)
        (created_at r) ts.

Definition update_last_verified (rid now ts : Z) (t : list Row)
  : list Row :=
  map (fun r => if id r =? rid then set_verified now ts r else r) t.

Definition max_rowid (t : list Row) : Z :=
  fold_right (fun r m => Z.max (id r) m) 0 t.

(** AUTOINCREMENT: one more than the largest rowid the table holds or has
    ever held ([seq] is the entry of the table in [sqlite_sequence]). *)
Definition next_rowid (seq : Z) (t : list Row) : Z :=
  Z.max seq (max_rowid t) + 1.

Definition count (p : Row -> bool) (t : list Row) : Z :=
  Z.of_nat (List.length (filter p t)).

(** [SUM(file_size)] over the rows kept by [p]; NULL sizes are skipped
    and an empty sum is NULL. *)
Definition sum_file_size (p : Row -> bool) (t : list Row) : option Z :=
  match filter (fun r => p r && match file_size r with
                                | Some _ => true
                                | None => false
                                end) t with
  | [] => None
  | kept => Some (fold_right
                    (fun r s => match file_size r with
                                | Some n => n + s
                                | None => s
                                end) 0 kept)
  end.

Definition min_opt (l : list Z) : option Z :=
  match l with
  | [] => None
  | x :: rest => Some (fold_right Z.min x rest)
  end.

Definition max_opt (l : list Z) : option Z :=
  match l with
  | [] => None
  | x :: rest => Some (fold_right Z.max x rest)
  end.

(** Stable insertion into a list sorted by decreasing [created_at]:
    [ORDER BY created_at DESC] over rows scanned in rowid order. *)
Fixpoint insert_desc (r : Row) (sorted : list Row) : list Row :=
  match sorted with
  | [] => [r]
  | r' :: rest =>
      if created_at r' <? created_at r then r :: sorted
      else r' :: insert_desc r rest
  end.

Definition order_by_created_at_desc (rows : list Row) : list Row :=
  fold_left (fun sorted r => insert_desc r sorted) rows [].

End Sql.

(** ** class FalUploadDB *)

Section FalUploadDB.

Variable env : Env.

(** *** Observations of the outside world *)

Definition os_path_exists (p : string) : M bool :=
  fun w => (Returned (match fs w p with Some _ => true | None => false end),
            w).

Definition os_path_getsize (p : string) : M Z :=
  fun w =>
    match fs w p with
    | Some f =>
        match st_size f with
        | Some n => (Returned n, w)
        | None => (Raised OSError, w)
        end
    | None => (Raised OSError, w)
    end.

(** [open(p, 'rb')] and reading to the end. *)
Definition read_bytes (p : string) : M (list byte) :=
  fun w =>
    match fs w p with
    | Some f =>
        match content f with
        | Some b => (Returned b, w)
        | None => (Raised OSError, w)
        end
    | None => (Raised OSError, w)
    end.

Definition CURRENT_TIMESTAMP : M Z :=
  n <- tick ;; ret (current_timestamp env n).

Definition datetime_now_isoformat : M Z :=
  n <- tick ;; ret (datetime_now env n).

(** [requests.head(url, timeout=timeout, allow_redirects=True)]: the
    status code of the final response, or the exception raised. *)
Definition requests_head (u : string) (timeout : Z) : M Z :=
  n <- tick ;;
  match http_head env n u timeout with
  | Returned status_code => ret status_code
  | Raised e => raise e
  end.

(** *** Methods *)

(** CREATE TABLE / CREATE INDEX IF NOT EXISTS: the table of the world
    is left as it is. *)
Definition init_database : M unit := ret tt.

Definition calculate_file_hash (p : string) : M (option string) :=
  try_except
    (b <- read_bytes p ;; ret (Some (sha256_hexdigest env b)))
    is_Exception
    (fun _ => ret None).

Definition check_url_validity (u : string) (timeout : Z) : M bool :=
  try_except
    (status_code <- requests_head u timeout ;; ret (status_code =? 200))
    any_exception
    (fun _ => ret false).

Definition invalidate_record (record_id : Z) : M unit :=
  ts <- CURRENT_TIMESTAMP ;;
  w <- get_world ;;
  set_uploads (Sql.update_invalidate record_id ts (uploads w)).

(** [validate_url and not self.check_url_validity(record['url'])]; the
    verdict obtained is entered in the probe history. *)
Definition url_is_dead (validate_url : bool) (record : Row) : M bool :=
  if validate_url then
    live <- check_url_validity (url record) 10 ;;
    note_probe (mkProbe (id record) (url record) live) ;;
    ret (negb live)
  else ret false.

Definition find_by_filename (name : string) (validate_url : bool)
  : M (option Row) :=
  w <- get_world ;;
  match Sql.select_latest_valid (Sql.filename_is name) (uploads w) with
  | None => ret None
  | Some record =>
      dead <- url_is_dead validate_url record ;;
      if dead then
        invalidate_record (id record) ;;
        ret None
      else
        now <- datetime_now_isoformat ;;
        ts <- CURRENT_TIMESTAMP ;;
        w' <- get_world ;;
        set_uploads
          (Sql.update_last_verified (id record) now ts (uploads w')) ;;
        ret (Some record)
  end.

Definition find_by_hash (h : string) (validate_url : bool)
  : M (option Row) :=
  w <- get_world ;;
  match Sql.select_latest_valid (Sql.file_hash_is h) (uploads w) with
  | None => ret None
  | Some record =>
      dead <- url_is_dead validate_url record ;;
      if dead then
        invalidate_record (id record) ;;
        ret None
      else ret (Some record)
  end.

(** The INSERT statement with its commit.  [is_valid], [created_at] and
    [updated_at] take their column defaults. *)
Definition execute_insert (name u : string) (path : option string)
    (size : option Z) (hash : option string) (date verified : Z)
    (meta : option string) : M Z :=
  n <- tick ;;
  match insert_fault env n with
  | Some e => raise e
  | None =>
      w <- get_world ;;
      let rowid := Sql.next_rowid (sqlite_sequence w) (uploads w) in
      let ts := current_timestamp env n in
      set_uploads
        (uploads w ++
         [mkRow rowid name u path size hash date (Some verified) 1 meta
                ts ts]) ;;
      set_sqlite_sequence rowid ;;
      ret rowid
  end.

(** The size and the hash [insert_upload] computes before it opens the
    database: [file_size] and [file_hash] start as [None] and are assigned
    one after the other inside a [try] whose handler is [pass]. *)
Definition size_and_hash (path : option string)
  : M (option Z * option string) :=
  match path with
  | Some p =>
      if truthy p then
        there <- os_path_exists p ;;
        if there then
          try_except
            (size <- os_path_getsize p ;;
             try_except
               (hash <- calculate_file_hash p ;; ret (Some size, hash))
               is_Exception
               (fun _ => ret (Some size, None)))
            is_Exception
            (fun _ => ret (None, None))
        else ret (None, None)
      else ret (None, None)
  | None => ret (None, None)
  end.

(** [metadata] is the text [json.dumps] gives, [None] for no metadata. *)
Definition insert_upload (name u : string) (path : option string)
    (meta : option string) : M Z :=
  sized <- size_and_hash path ;;
  date <- datetime_now_isoformat ;;
  verified <- datetime_now_isoformat ;;
  execute_insert name u path (fst sized) (snd sized) date verified meta.

Fixpoint cleanup_loop (records : list (Z * string)) (invalidated_count : Z)
  : M Z :=
  match records with
  | [] => ret invalidated_count
  | (record_id, record_url) :: rest =>
      live <- check_url_validity record_url 10 ;;
      note_probe (mkProbe record_id record_url live) ;;
      if live then cleanup_loop rest invalidated_count
      else
        invalidate_record record_id ;;
        cleanup_loop rest (invalidated_count + 1)
  end.

Definition cleanup_invalid_urls (batch_size : Z) : M Z :=
  w <- get_world ;;
  let records :=
    map (fun r => (id r, url r))
        (Sql.limit batch_size (filter Sql.valid (uploads w))) in
  cleanup_loop records 0.

(** The dictionary [get_stats] returns, without the rounded megabyte
    figure (a float). *)
Record Stats : Type := mkStats {
  total_records : Z;
  valid_records : Z;
  invalid_records : Z;
  total_size_bytes : Z;
  earliest_upload : option Z;
  latest_upload : option Z
}.

Definition get_stats : M Stats :=
  w <- get_world ;;
  let t := uploads w in
  ret (mkStats
         (Sql.count (fun _ => true) t)
         (Sql.count Sql.valid t)
         (Sql.count (fun r => is_valid r =? 0) t)
         (match Sql.sum_file_size Sql.valid t with
          | Some n => n
          | None => 0                (* [... or 0] *)
          end)
         (Sql.min_opt (map upload_date (filter Sql.valid t)))
         (Sql.max_opt (map upload_date (filter Sql.valid t)))).

Definition search_uploads (query : string) (limit : Z) : M (list Row) :=
  w <- get_world ;;
  let pat := "%" ++ query ++ "%" in
  let hit r :=
    if truthy query then
      (like pat (filename r) || like pat (url r)
       || like_opt pat (file_path r)) && Sql.valid r
    else Sql.valid r in
  ret (Sql.limit limit
         (Sql.order_by_created_at_desc (filter hit (uploads w)))).

Fixpoint migrate_loop (items : list (string * string)) (migrated_count : Z)
  : M Z :=
  match items with
  | [] => ret migrated_count
  | (name, u) :: rest =>
      existing <- find_by_filename name false ;;
      match existing with
      | Some _ => migrate_loop rest migrated_count
      | None =>
          insert_upload name u None None ;;
          migrate_loop rest (migrated_count + 1)
      end
  end.

Definition migrate_from_json (json_file_path : string) : M Z :=
  there <- os_path_exists json_file_path ;;
  if negb there then ret 0
  else
    try_except
      (b <- read_bytes json_file_path ;;
       data <- match json_load env b with
               | Returned d => ret d
               | Raised e => raise e
               end ;;
       migrate_loop data 0)
      is_Exception
      (fun e => print (MigrationError e) ;; ret 0).

(** ** fal_upload_wrapper.py *)

Definition LOCAL_FAL_UPLOAD_SCRIPT : string := "local_fal_upload.py".

Definition check_file_in_database (path : string)
  : M (bool * option Row) :=
  let file_name := basename path in
  record <- find_by_filename file_name true ;;
  match record with
  | Some r => ret (true, Some r)
  | None =>
      there <- os_path_exists path ;;
      if there then
        file_hash <- calculate_file_hash path ;;
        match file_hash with
        | Some h =>
            if truthy h then
              record' <- find_by_hash h true ;;
              match record' with
              | Some r =>
                  print (InfoSameContent (filename r)) ;;
                  ret (true, Some r)
              | None => ret (false, None)
              end
            else ret (false, None)
        | None => ret (false, None)
        end
      else ret (false, None)
  end.

(** The uploader subprocess and the scan of its output for the URL are
    taken as one oracle; every failure inside gives [None], and so does
    an empty URL. *)
Definition run_local_fal_upload (path : string) : M (option string) :=
  n <- tick ;;
  match uploader env n path with
  | Some uploaded_url =>
      if truthy uploaded_url then ret (Some uploaded_url) else ret None
  | None => ret None
  end.

(** [argv] is [sys.argv]. *)
Definition force_upload (argv : list string) : bool :=
  match nth_error argv 2 with
  | Some flag => String.eqb flag "--force-upload"
  | None => false
  end.

(** The registration that ends [upload_with_database_wrapper]: the call
    of [insert_upload] inside [try] / [except Exception]. *)
Definition register_upload (file_name uploaded_url path : string)
  : M unit :=
  print (InfoRegistering file_name uploaded_url) ;;
  try_except
    (record_id <- insert_upload file_name uploaded_url (Some path) None ;;
     print (SuccessRegistered record_id))
    is_Exception
    (fun e => print (WarningRegisterFailed e)).

(** [upload_with_database_wrapper] from the report of the file size on:
    the upload, then the registration, then the uploaded URL. *)
Definition upload_new (file_name path : string) : M (option string) :=
  file_size <- os_path_getsize path ;;
  print (InfoTarget path file_size) ;;
  print InfoRunning ;;
  uploaded <- run_local_fal_upload path ;;
  match uploaded with
  | None => ret None
  | Some uploaded_url =>
      if truthy uploaded_url then
        print (UploadSucceeded uploaded_url) ;;
        register_upload file_name uploaded_url path ;;
        ret (Some uploaded_url)
      else ret None
  end.

Definition upload_with_database_wrapper (argv : list string)
    (path : string) : M (option string) :=
  there <- os_path_exists path ;;
  if negb there then print (ErrFileNotFound path) ;; ret None
  else
    script <- os_path_exists LOCAL_FAL_UPLOAD_SCRIPT ;;
    if negb script then print ErrScriptNotFound ;; ret None
    else
      init_database ;;
      let file_name := basename path in
      print (InfoDupCheck file_name) ;;
      res <- check_file_in_database path ;;
      match res with
      | (true, Some existing_record) =>
          let existing_url := url existing_record in
          print (SuccessAlreadyRegistered (filename existing_record)
                                          existing_url) ;;
          if force_upload argv then
            print InfoForceUpload ;;
            upload_new file_name path
          else
            print (UseExisting existing_url) ;;
            ret (Some existing_url)
      | _ => upload_new file_name path
      end.

End FalUploadDB.

(** * Properties *)

(** ** Vocabulary of the statements *)

(** The verdict [check_url_validity] reaches on [u] when the HEAD request
    is sent at instant [n] with the default timeout. *)
Definition live (env : Env) (n : nat) (u : string) : bool :=
  match http_head env n u 10 with
  | Returned status_code => status_code =? 200
  | Raised _ => false
  end.

(** [r] is a valid row of [t] matching [key], and no valid matching row
    of [t] was created later. *)
Definition newest_valid_match (key : Row -> bool) (t : list Row) (r : Row)
  : Prop :=
  In r t /\ key r = true /\ is_valid r = 1 /\
  forall r', In r' t -> key r' = true -> is_valid r' = 1 ->
             created_at r' <= created_at r.

Definition no_valid_match (key : Row -> bool) (t : list Row) : Prop :=
  forall r, In r t -> key r = true -> is_valid r <> 1.

(** Every row with this id is marked invalid. *)
Definition invalidated (rid : Z) (t : list Row) : Prop :=
  forall r, In r t -> id r = rid -> is_valid r = 0.

(** The world once the verdict [b] about [r] has been obtained. *)
Definition probed (r : Row) (b : bool) (w : World) : World :=
  mkWorld (uploads w) (sqlite_sequence w) (fs w) (S (instant w))
          (mkProbe (id r) (url r) b :: probe_log w) (stdout w).

(** The world once [last_verified] of the rows with [rid] is refreshed. *)
Definition verified (env : Env) (rid : Z) (w : World) : World :=
  mkWorld (Sql.update_last_verified rid (datetime_now env (instant w))
             (current_timestamp env (S (instant w))) (uploads w))
          (sqlite_sequence w) (fs w) (S (S (instant w)))
          (probe_log w) (stdout w).

(** What a lookup by [key] with the flag [v] may answer in the world [w]:
    absent when no valid row matches; the newest valid match when
    validation is off or its URL is live; absent, with that row
    invalidated, when validation is on and its URL is dead. *)
Definition lookup_outcome (env : Env) (key : Row -> bool) (v : bool)
    (w : World) (out : Exc (option Row) * World) : Prop :=
  (no_valid_match key (uploads w) /\ fst out = Returned None) \/
  exists r, newest_valid_match key (uploads w) r /\
    (((v = false \/ live env (instant w) (url r) = true) /\
      fst out = Returned (Some r)) \/
     (v = true /\ live env (instant w) (url r) = false /\
      fst out = Returned None /\ invalidated (id r) (uploads (snd out)))).

(** What one validated lookup adds to the probe history and leaves in
    the table. *)
Definition lookup_trace (w : World) (out : Exc (option Row) * World) : Prop :=
  exists new : list ProbeEvent,
    probe_log (snd out) = (new ++ probe_log w)%list /\
    fs (snd out) = fs w /\
    (forall rid, invalidated rid (uploads w) ->
                 invalidated rid (uploads (snd out))) /\
    (forall ev, In ev new -> verdict ev = false ->
       fst out = Returned None /\
       invalidated (probed_id ev) (uploads (snd out))) /\
    (forall r, fst out = Returned (Some r) ->
       In r (uploads (snd out)) /\ is_valid r = 1) /\
    (exists o, fst out = Returned o).

(** A computation is stable for a relation between tables when the table
    it leaves, returning or raising, is related to the table it found. *)
Definition stable (Rt : list Row -> list Row -> Prop) {A : Type} (m : M A)
  : Prop :=
  forall w, Rt (uploads w) (uploads (snd (m w))).

(** ** Sequences of operations *)

(** The operations a client of the store can issue, and one step by which
    the outside world replaces the file system. *)
Inductive Op : Type :=
| OpInsert (name u : string) (path meta : option string)
| OpFindByFilename (name : string) (validate_url : bool)
| OpFindByHash (h : string) (validate_url : bool)
| OpInvalidate (record_id : Z)
| OpCleanup (batch_size : Z)
| OpStats
| OpSearch (query : string) (limit : Z)
| OpMigrate (json_file_path : string)
| OpResolve (path : string)
| OpUpload (argv : list string) (path : string)
| OpFiles (files : string -> option File).

(** The world an operation leaves behind, whether it returned or raised. *)
Definition run_op (env : Env) (op : Op) (w : World) : World :=
  match op with
  | OpInsert name u path meta => snd (insert_upload env name u path meta w)
  | OpFindByFilename name v => snd (find_by_filename env name v w)
  | OpFindByHash h v => snd (find_by_hash env h v w)
  | OpInvalidate rid => snd (invalidate_record env rid w)
  | OpCleanup batch_size => snd (cleanup_invalid_urls env batch_size w)
  | OpStats => snd (get_stats w)
  | OpSearch query limit => snd (search_uploads query limit w)
  | OpMigrate path => snd (migrate_from_json env path w)
  | OpResolve path => snd (check_file_in_database env path w)
  | OpUpload argv path => snd (upload_with_database_wrapper env argv path w)
  | OpFiles files =>
      mkWorld (uploads w) (sqlite_sequence w) files (instant w)
              (probe_log w) (stdout w)
  end.

Definition run_ops (env : Env) (ops : list Op) (w : World) : World :=
  fold_left (fun w' op => run_op env op w') ops w.

(** A database file that has just been created. *)
Definition fresh_world (files : string -> option File) : World :=
  mkWorld [] 0 files 0 [] [].

(** [r'] is a later state of the row [r]. *)
Definition row_evolves (r r' : Row) : Prop :=
  id r' = id r /\ filename r' = filename r /\ url r' = url r /\
  file_hash r' = file_hash r /\ upload_date r' = upload_date r /\
  created_at r' = created_at r /\
  (is_valid r = 0 -> is_valid r' = 0).

(** [t'] is a later state of the table [t]: the rows of [t] in place,
    each possibly updated, followed by the rows inserted since. *)
Definition evolves (t t' : list Row) : Prop :=
  exists kept added : list Row,
    t' = (kept ++ added)%list /\ Forall2 row_evolves t kept.

Definition flags_boolean (t : list Row) : Prop :=
  forall r, In r t -> is_valid r = 0 \/ is_valid r = 1.

(** The PRIMARY KEY constraint. *)
Definition primary_key (t : list Row) : Prop := NoDup (map id t).

(** The columns [id] and [is_valid] of the table. *)
Definition validity (t : list Row) : list (Z * Z) :=
  map (fun r => (id r, is_valid r)) t.

Definition mem (i : Z) (ids : list Z) : bool := existsb (Z.eqb i) ids.

(** The flags once every id of [ids] has been invalidated. *)
Definition kill (ids : list Z) (v : list (Z * Z)) : list (Z * Z) :=
  map (fun p => (fst p, if mem (fst p) ids then 0 else snd p)) v.

Definition flag_valid (p : Z * Z) : bool := snd p =? 1.

(** How many rows a sweep with this batch size fetches. *)
Definition fetched (batch_size : Z) (valid_before : Z) : Z :=
  if batch_size <? 0 then valid_before else Z.min batch_size valid_before.

(** ** Concrete environments and tables used in the examples *)

Module Examples.

(** Every HEAD request is answered with this status. *)
Definition env_status (status_code : Z) : Env :=
  mkEnv (fun _ _ _ => Returned status_code)
        (fun _ => 1700000000)
        (fun n => 1700000000000000 + Z.of_nat n)
        (fun _ => "9f86d081884c7d65")
        (fun _ => None)
        (fun _ _ => Some "https://x/new")
        (fun _ => Raised JSONDecodeError).

Definition env_live : Env := env_status 200.
Definition env_dead : Env := env_status 404.

(** The clock of SQLite advances by one second at every instant. *)
Definition env_ticking : Env :=
  mkEnv (fun _ _ _ => Returned 200)
        (fun n => 1700000000 + Z.of_nat n)
        (fun n => 1700000000000000 + Z.of_nat n)
        (fun _ => "9f86d081884c7d65")
        (fun _ => None)
        (fun _ _ => Some "https://x/new")
        (fun _ => Raised JSONDecodeError).

(** Only [https://x/1] answers 200. *)
Definition env_one_live : Env :=
  mkEnv (fun _ u _ => if String.eqb u "https://x/1" then Returned 200
                      else Returned 404)
        (fun n => 1700000000 + Z.of_nat n)
        (fun n => 1700000000000000 + Z.of_nat n)
        (fun _ => "9f86d081884c7d65")
        (fun _ => None)
        (fun _ _ => Some "https://x/new")
        (fun _ => Raised JSONDecodeError).

(** Every INSERT fails. *)
Definition env_store_down : Env :=
  mkEnv (fun _ _ _ => Returned 200)
        (fun _ => 1700000000)
        (fun n => 1700000000000000 + Z.of_nat n)
        (fun _ => "9f86d081884c7d65")
        (fun _ => Some OperationalError)
        (fun _ _ => Some "https://x/new")
        (fun _ => Raised JSONDecodeError).

Definition photo : File := mkFile (Some 3) (Some [x01; x02; x03]).

Definition no_files : string -> option File := fun _ => None.

Definition disk : string -> option File :=
  fun p =>
    if String.eqb p "/tmp/photo.png" then Some photo
    else if String.eqb p "/tmp/copy.png" then Some photo
    else if String.eqb p "/tmp/renamed.png" then Some photo
    else if String.eqb p "local_fal_upload.py" then Some photo
    else None.

Definition row (i : Z) (name u : string) (valid_flag ts : Z) : Row :=
  mkRow i name u None None None (1000000 * ts) (Some (1000000 * ts))
        valid_flag None ts ts.

Definition one_photo : World :=
  mkWorld [row 1 "photo.png" "https://x/1" 1 1700000000] 1 no_files 0
          [] [].

(** The same table after [invalidate_record(1)]. *)
Definition retired_photo : World :=
  run_ops env_live [OpInvalidate 1] one_photo.

(** One upload of a readable file, stored with its hash. *)
Definition hashed_photo : World :=
  run_ops env_live
    [OpInsert "photo.png" "https://x/1" (Some "/tmp/photo.png") None]
    (fresh_world disk).

(** [n] valid rows with ids 1 to [n]. *)
Definition many_rows (n : nat) : list Row :=
  map (fun k => row (Z.of_nat k) "photo.png" "https://x/1" 1 1700000000)
      (seq 1 n).

Definition big_store : World :=
  mkWorld (many_rows 101) 101 no_files 0 [] [].

(** A row stamped five minutes ahead of the clock of [env_live]. *)
Definition stamped_ahead : World :=
  mkWorld [row 1 "photo.png" "https://x/1" 1 1700000300] 1 no_files 0
          [] [].

(** The same bytes uploaded under two names, one after the other. *)
Definition same_bytes_twice : World :=
  run_ops env_one_live
    [OpInsert "photo.png" "https://x/1" (Some "/tmp/photo.png") None;
     OpInsert "copy.png" "https://x/2" (Some "/tmp/copy.png") None]
    (fresh_world disk).

End Examples.

(** ** Vocabulary of the further properties *)

(** Some valid row of [t] carries the file name [name]. *)
Definition has_valid (name : string) (t : list Row) : Prop :=
  exists r, In r t /\ filename r = name /\ is_valid r = 1.

(** The id [rid] is in use, and every row carrying it is invalid. *)
Definition retired (rid : Z) (t : list Row) : Prop :=
  (exists r, In r t /\ id r = rid) /\ invalidated rid t.



(** The size and hash columns [insert_upload] stores for [path] in a
    file system [files]. *)
Definition stored_size_hash (env : Env) (files : string -> option File)
    (path : option string) (new : Row) : Prop :=
  match path with
  | Some p =>
      match files p with
      | Some f =>
          if truthy p then
            match st_size f with
            | Some n =>
                file_size new = Some n /\
                file_hash new =
                  match content f with
                  | Some b => Some (sha256_hexdigest env b)
                  | None => None
                  end
            | None => file_size new = None /\ file_hash new = None
            end
          else file_size new = None /\ file_hash new = None
      | None => file_size new = None /\ file_hash new = None
      end
  | None => file_size new = None /\ file_hash new = None
  end.

(** Ids ascend along the table and start at 1. *)
Definition ids_ascend (t : list Row) : Prop :=
  StronglySorted Z.lt (map id t) /\ forall r, In r t -> 1 <= id r.

(** The world after the lines [msgs] are printed, the last one first. *)
Definition printed (msgs : list Msg) (w : World) : World :=
  mkWorld (uploads w) (sqlite_sequence w) (fs w) (instant w) (probe_log w)
          (msgs ++ stdout w).

(** What a lookup by [key] found for resolution: a valid row of the table
    it read, matching [key], with a confirmation in the probes [new]. *)
Definition confirmed_match (key : Row -> bool) (t : list Row)
    (new : list ProbeEvent) (x : Row) : Prop :=
  In x t /\ is_valid x = 1 /\ key x = true /\
  In (mkProbe (id x) (url x) true) new.

(** ** Further concrete files, environments and tables *)

Module Cases.

(** A file that can be sized but not read. *)
Definition locked : File := mkFile (Some 7) None.

Definition legacy_items : list (string * string) :=
  [("photo.png", "https://x/old"); ("scan.png", "https://x/scan")].

Definition disk : string -> option File :=
  fun p =>
    if String.eqb p "/tmp/photo.png" then Some Examples.photo
    else if String.eqb p "/tmp/locked.png" then Some locked
    else if String.eqb p "legacy.json" then Some Examples.photo
    else if String.eqb p "local_fal_upload.py" then Some Examples.photo
    else None.

(** Every probe answers 200, no INSERT fails, the uploader returns a URL
    and the legacy document parses to [legacy_items]. *)
Definition env_legacy : Env :=
  mkEnv (fun _ _ _ => Returned 200)
        (fun n => 1700000000 + Z.of_nat n)
        (fun n => 1700000000000000 + Z.of_nat n)
        (fun _ => "9f86d081884c7d65")
        (fun _ => None)
        (fun _ _ => Some "https://x/new")
        (fun _ => Returned legacy_items).

(** The uploader gives no URL. *)
Definition env_no_upload : Env :=
  mkEnv (fun _ _ _ => Returned 200)
        (fun n => 1700000000 + Z.of_nat n)
        (fun n => 1700000000000000 + Z.of_nat n)
        (fun _ => "9f86d081884c7d65")
        (fun _ => None)
        (fun _ _ => None)
        (fun _ => Raised JSONDecodeError).

(** One valid row named [photo.png], on a disk that holds the file. *)
Definition photo_on_disk : World :=
  mkWorld [Examples.row 1 "photo.png" "https://x/1" 1 1700000000] 1 disk 0
          [] [].

End Cases.

(** ** The two SELECTs *)

Section LatestValid.

Import Sql.

Lemma newest_none (l : list Row) :
  order_by_created_at_desc_limit_1 l = None -> l = [].
Proof.
  destruct l as [|r rest]; [reflexivity|]. simpl.
  destruct (order_by_created_at_desc_limit_1 rest) as [r'|];
    [destruct (created_at r <? created_at r')|]; discriminate.
Qed.

Lemma newest_in (l : list Row) (r : Row) :
  order_by_created_at_desc_limit_1 l = Some r -> In r l.
Proof.
  revert r. induction l as [|x rest IH]; intros r; simpl; [discriminate|].
  destruct (order_by_created_at_desc_limit_1 rest) as [r'|].
  - destruct (created_at x <? created_at r'); intros [= <-]; auto.
  - intros [= <-]; auto.
Qed.

Lemma newest_is_greatest (l : list Row) (r : Row) :
  order_by_created_at_desc_limit_1 l = Some r ->
  forall r', In r' l -> created_at r' <= created_at r.
Proof.
  revert r. induction l as [|x rest IH]; intros r; simpl; [discriminate|].
  destruct (order_by_created_at_desc_limit_1 rest) as [m|] eqn:E.
  - destruct (Z.ltb_spec (created_at x) (created_at m)) as [Hlt|Hge];
      intros [= <-] r' [<-|Hin]; try lia.
    + now apply IH.
    + specialize (IH m eq_refl r' Hin). lia.
  - intros [= <-] r' [<-|Hin]; [lia|].
    apply newest_none in E. subst rest. destruct Hin.
Qed.

(** A row strictly newer than every other row is the one selected. *)
Lemma newest_strict (l : list Row) (r : Row) :
  In r l ->
  (forall r', In r' l -> r' = r \/ created_at r' < created_at r) ->
  order_by_created_at_desc_limit_1 l = Some r.
Proof.
  intros Hin Hstrict.
  destruct (order_by_created_at_desc_limit_1 l) as [m|] eqn:E.
  - destruct (Hstrict m (newest_in _ _ E)) as [->|Hlt]; [reflexivity|].
    pose proof (newest_is_greatest _ _ E r Hin). lia.
  - apply newest_none in E. subst l. destruct Hin.
Qed.

Lemma select_latest_valid_some (key : Row -> bool) (t : list Row) (r : Row) :
  select_latest_valid key t = Some r -> newest_valid_match key t r.
Proof.
  unfold select_latest_valid, newest_valid_match. intros E.
  pose proof (newest_in _ _ E) as Hin.
  apply filter_In in Hin. destruct Hin as [Hin Hk].
  apply andb_true_iff in Hk. destruct Hk as [Hk Hv].
  unfold valid in Hv. apply Z.eqb_eq in Hv.
  repeat split; auto.
  intros r' Hin' Hk' Hv'. apply (newest_is_greatest _ _ E).
  apply filter_In. split; [assumption|].
  unfold valid. rewrite Hk', Hv'. reflexivity.
Qed.

Lemma select_latest_valid_none (key : Row -> bool) (t : list Row) :
  select_latest_valid key t = None <-> no_valid_match key t.
Proof.
  unfold select_latest_valid, no_valid_match. split.
  - intros E r Hin Hk Hv. apply newest_none in E.
    assert (Hf : In r (filter (fun r => key r && valid r) t)).
    { apply filter_In. split; [assumption|].
      unfold valid. rewrite Hk, Hv. reflexivity. }
    rewrite E in Hf. destruct Hf.
  - intros Hno.
    destruct (order_by_created_at_desc_limit_1 _) as [r|] eqn:E;
      [|reflexivity].
    apply select_latest_valid_some in E.
    destruct E as (Hin & Hk & Hv & _). now destruct (Hno r Hin Hk).
Qed.

Lemma select_latest_valid_strict (key : Row -> bool) (t : list Row)
    (r : Row) :
  In r t -> key r = true -> is_valid r = 1 ->
  (forall r', In r' t -> key r' = true -> is_valid r' = 1 ->
              r' = r \/ created_at r' < created_at r) ->
  select_latest_valid key t = Some r.
Proof.
  intros Hin Hk Hv Hstrict. unfold select_latest_valid.
  apply newest_strict.
  - apply filter_In. split; [assumption|].
    unfold valid. rewrite Hk, Hv. reflexivity.
  - intros r' Hin'. apply filter_In in Hin'. destruct Hin' as [Hin' Hb].
    apply andb_true_iff in Hb. destruct Hb as [Hk' Hv'].
    apply Z.eqb_eq in Hv'. auto.
Qed.

End LatestValid.

(** ** Running the lookups *)

Section Lookups.

Variable env : Env.

Lemma check_url_validity_run (u : string) (timeout : Z) (w : World) :
  check_url_validity env u timeout w =
  (Returned (match http_head env (instant w) u timeout with
             | Returned status_code => status_code =? 200
             | Raised _ => false
             end),
   snd (tick w)).
Proof.
  unfold check_url_validity, try_except, requests_head, bind, tick. simpl.
  destruct (http_head env (instant w) u timeout); reflexivity.
Qed.

Lemma url_is_dead_run (v : bool) (r : Row) (w : World) :
  url_is_dead env v r w =
  if v then (Returned (negb (live env (instant w) (url r))),
             probed r (live env (instant w) (url r)) w)
  else (Returned false, w).
Proof.
  unfold url_is_dead. destruct v; [|reflexivity].
  unfold bind. rewrite check_url_validity_run. reflexivity.
Qed.

Lemma invalidate_record_run (rid : Z) (w : World) :
  invalidate_record env rid w =
  (Returned tt,
   mkWorld (Sql.update_invalidate rid (current_timestamp env (instant w))
              (uploads w))
           (sqlite_sequence w) (fs w) (S (instant w))
           (probe_log w) (stdout w)).
Proof. reflexivity. Qed.

Lemma find_by_filename_run (name : string) (v : bool) (w : World) :
  find_by_filename env name v w =
  match Sql.select_latest_valid (Sql.filename_is name) (uploads w) with
  | None => (Returned None, w)
  | Some r =>
      if v && negb (live env (instant w) (url r)) then
        (Returned None,
         snd (invalidate_record env (id r) (probed r false w)))
      else
        (Returned (Some r),
         verified env (id r) (if v then probed r true w else w))
  end.
Proof.
  unfold find_by_filename, bind at 1, get_world.
  destruct (Sql.select_latest_valid _ _) as [r|]; [|reflexivity].
  unfold bind at 1. rewrite url_is_dead_run.
  destruct v; [destruct (live env (instant w) (url r))|]; reflexivity.
Qed.

Lemma find_by_hash_run (h : string) (v : bool) (w : World) :
  find_by_hash env h v w =
  match Sql.select_latest_valid (Sql.file_hash_is h) (uploads w) with
  | None => (Returned None, w)
  | Some r =>
      if v && negb (live env (instant w) (url r)) then
        (Returned None,
         snd (invalidate_record env (id r) (probed r false w)))
      else
        (Returned (Some r), if v then probed r true w else w)
  end.
Proof.
  unfold find_by_hash, bind at 1, get_world.
  destruct (Sql.select_latest_valid _ _) as [r|]; [|reflexivity].
  unfold bind at 1. rewrite url_is_dead_run.
  destruct v; [destruct (live env (instant w) (url r))|]; reflexivity.
Qed.

End Lookups.

(** ** The liveness verifier *)

(** C3. [check_url_validity] always returns a boolean, never an
    exception, and the boolean is [True] exactly when the HEAD request
    was answered with status 200: any other status and any exception
    raised by the request (timeout, connection failure, protocol error,
    and whatever else a bare [except] catches) give [False]. *)
Theorem check_url_validity_true_iff_200 (env : Env) (u : string)
    (timeout : Z) (w : World) :
  exists b : bool,
    fst (check_url_validity env u timeout w) = Returned b /\
    (b = true <-> http_head env (instant w) u timeout = Returned 200) /\
    (forall e, http_head env (instant w) u timeout = Raised e -> b = false).
Proof.
  rewrite check_url_validity_run. simpl.
  destruct (http_head env (instant w) u timeout) as [status_code|e] eqn:E.
  - exists (status_code =? 200). split; [reflexivity|]. split.
    + rewrite Z.eqb_eq. split; [intros ->; reflexivity|intros [= ->]; reflexivity].
    + intros e [=].
  - exists false. split; [reflexivity|]. split.
    + split; discriminate.
    + reflexivity.
Qed.

(** ** Lookups by file name and by hash *)

Section LookupOutcome.

Variable env : Env.

Lemma invalidated_by_update (rid ts : Z) (t : list Row) :
  invalidated rid (Sql.update_invalidate rid ts t).
Proof.
  intros r Hin Hid. unfold Sql.update_invalidate in Hin.
  apply in_map_iff in Hin. destruct Hin as (r0 & <- & _).
  destruct (Z.eqb_spec (id r0) rid) as [_|Hne]; [reflexivity|].
  now destruct Hne.
Qed.

Lemma invalidated_kept_by_update (rid rid' ts : Z) (t : list Row) :
  invalidated rid t -> invalidated rid (Sql.update_invalidate rid' ts t).
Proof.
  intros H r Hin Hid. unfold Sql.update_invalidate in Hin.
  apply in_map_iff in Hin. destruct Hin as (r0 & <- & Hin0).
  destruct (id r0 =? rid'); [reflexivity|]. now apply H.
Qed.

Lemma lookup_outcome_of_run (key : Row -> bool) (v : bool) (w : World)
    (out : Exc (option Row) * World) (w_live : Row -> World) :
  out =
  match Sql.select_latest_valid key (uploads w) with
  | None => (Returned None, w)
  | Some r =>
      if v && negb (live env (instant w) (url r)) then
        (Returned None,
         snd (invalidate_record env (id r) (probed r false w)))
      else (Returned (Some r), w_live r)
  end ->
  lookup_outcome env key v w out.
Proof.
  intros ->. unfold lookup_outcome.
  destruct (Sql.select_latest_valid key (uploads w)) as [r|] eqn:E.
  - right. exists r. split; [now apply select_latest_valid_some|].
    destruct v; simpl.
    + destruct (live env (instant w) (url r)); simpl.
      * left. auto.
      * right. repeat split. apply invalidated_by_update.
    + left. auto.
  - left. split; [now apply select_latest_valid_none|reflexivity].
Qed.

End LookupOutcome.

(** C1, as the code has it.  [find_by_filename] and [find_by_hash] never
    raise and never return an invalidated row.  When no valid row matches
    the key they return absent.  Otherwise let [r] be the valid matching
    row with the greatest [created_at] that the SELECT picks: with
    [validate_url] off, or when the probe of [r]'s URL succeeds, they
    return [r]; with [validate_url] on and the probe failing they return
    absent and every row with [r]'s id is invalid afterwards. *)
Theorem find_returns_newest_valid_unless_dead (env : Env) (k : string)
    (v : bool) (w : World) :
  lookup_outcome env (Sql.filename_is k) v w (find_by_filename env k v w) /\
  lookup_outcome env (Sql.file_hash_is k) v w (find_by_hash env k v w).
Proof.
  split.
  - apply lookup_outcome_of_run
      with (w_live := fun r => verified env (id r)
                                 (if v then probed r true w else w)).
    apply find_by_filename_run.
  - apply lookup_outcome_of_run
      with (w_live := fun r => if v then probed r true w else w).
    apply find_by_hash_run.
Qed.

(** C1 as stated fails: the only row named [photo.png] is valid, yet the
    lookup with the default [validate_url=True] returns absent, because
    the server answers 404. *)
Lemma find_by_filename_absent_despite_valid_match :
  newest_valid_match (Sql.filename_is "photo.png")
    (uploads Examples.one_photo)
    (Examples.row 1 "photo.png" "https://x/1" 1 1700000000) /\
  fst (find_by_filename Examples.env_dead "photo.png" true
         Examples.one_photo) = Returned None.
Proof.
  split; [|reflexivity].
  unfold newest_valid_match. simpl. repeat split; auto.
  intros r' [<-|[]] _ _. simpl. lia.
Qed.

(** ** The identity resolver *)

Section Resolve.
Variable env : Env.

Lemma invalidated_kept_by_verify rid rid' now ts t :
  invalidated rid t ->
  invalidated rid (Sql.update_last_verified rid' now ts t).
Proof.
  intros H r Hin Hid. unfold Sql.update_last_verified in Hin.
  apply in_map_iff in Hin. destruct Hin as (r0 & <- & Hin0).
  destruct (id r0 =? rid'); simpl; now apply H.
Qed.

Lemma find_by_hash_trace h w :
  lookup_trace w (find_by_hash env h true w).
Proof.
  rewrite find_by_hash_run. unfold lookup_trace.
  destruct (Sql.select_latest_valid _ (uploads w)) as [r|] eqn:E.
  - apply select_latest_valid_some in E. destruct E as (Hin & _ & Hv & _).
    destruct (live env (instant w) (url r)) eqn:L; simpl.
    + exists [mkProbe (id r) (url r) true]. simpl.
      split; [reflexivity|]. split; [reflexivity|].
      split; [auto|].
      split; [intros ev [<-|[]]; discriminate|].
      split; [intros r0 [= <-]; auto|eauto].
    + exists [mkProbe (id r) (url r) false]. simpl.
      split; [reflexivity|]. split; [reflexivity|].
      split; [intros rid; apply invalidated_kept_by_update|].
      split; [intros ev [<-|[]] _; split;
              [reflexivity|apply invalidated_by_update]|].
      split; [discriminate|eauto].
  - exists []. simpl.
    split; [reflexivity|]. split; [reflexivity|].
    split; [auto|]. split; [intros ev []|].
    split; [discriminate|eauto].
Qed.

(** The filename lookup either answers with a row, having met no dead
    URL, or answers absent. *)
Lemma find_by_filename_trace name w :
  exists new,
    probe_log (snd (find_by_filename env name true w)) =
      (new ++ probe_log w)%list /\
    fs (snd (find_by_filename env name true w)) = fs w /\
    ((exists r, fst (find_by_filename env name true w) = Returned (Some r) /\
                forall ev, In ev new -> verdict ev = true) \/
     (fst (find_by_filename env name true w) = Returned None /\
      forall ev, In ev new ->
        invalidated (probed_id ev)
          (uploads (snd (find_by_filename env name true w))))).
Proof.
  rewrite find_by_filename_run.
  destruct (Sql.select_latest_valid _ (uploads w)) as [r|] eqn:E.
  - destruct (live env (instant w) (url r)) eqn:L; simpl.
    + exists [mkProbe (id r) (url r) true]. simpl.
      split; [reflexivity|]. split; [reflexivity|].
      left. exists r. split; [reflexivity|]. now intros ev [<-|[]].
    + exists [mkProbe (id r) (url r) false]. simpl.
      split; [reflexivity|]. split; [reflexivity|].
      right. split; [reflexivity|]. intros ev [<-|[]]. simpl.
      apply invalidated_by_update.
  - exists []. simpl. split; [reflexivity|]. split; [reflexivity|].
    right. split; [reflexivity|]. intros ev [].
Qed.

Lemma check_file_in_database_run (path : string) (w : World) :
  check_file_in_database env path w =
  match find_by_filename env (basename path) true w with
  | (Returned (Some r), w1) => (Returned (true, Some r), w1)
  | (Returned None, w1) =>
      match fs w1 path with
      | Some f =>
          match content f with
          | Some b =>
              if truthy (sha256_hexdigest env b) then
                match find_by_hash env (sha256_hexdigest env b) true w1 with
                | (Returned (Some r), w2) =>
                    (Returned (true, Some r),
                     snd (print (InfoSameContent (filename r)) w2))
                | (Returned None, w2) => (Returned (false, None), w2)
                | (Raised e, w2) => (Raised e, w2)
                end
              else (Returned (false, None), w1)
          | None => (Returned (false, None), w1)
          end
      | None => (Returned (false, None), w1)
      end
  | (Raised e, w1) => (Raised e, w1)
  end.
Proof.
  unfold check_file_in_database, bind at 1.
  destruct (find_by_filename env (basename path) true w) as [[[r|]|e] w1];
    try reflexivity.
  unfold bind at 1, os_path_exists.
  destruct (fs w1 path) as [f|] eqn:Ef; [|reflexivity].
  unfold bind at 1, calculate_file_hash, try_except, bind at 1, read_bytes.
  rewrite Ef. destruct (content f) as [b|]; [|reflexivity].
  unfold ret at 1. destruct (truthy (sha256_hexdigest env b)); [|reflexivity].
  unfold bind at 1.
  destruct (find_by_hash env (sha256_hexdigest env b) true w1)
    as [[[r|]|e] w2]; reflexivity.
Qed.

(** C2.  Every verdict [False] that the liveness verifier reaches during
    one call of [check_file_in_database] concerns a row that is marked
    invalid in the table the call leaves behind, and the record the call
    returns, if any, is not that row. *)
Theorem resolve_withholds_dead (path : string) (w : World) :
  exists new : list ProbeEvent,
    probe_log (snd (check_file_in_database env path w)) =
      (new ++ probe_log w)%list /\
    forall ev, In ev new -> verdict ev = false ->
      invalidated (probed_id ev)
        (uploads (snd (check_file_in_database env path w))) /\
      forall found r,
        fst (check_file_in_database env path w) = Returned (found, Some r) ->
        id r <> probed_id ev.
Proof.
  rewrite check_file_in_database_run.
  destruct (find_by_filename_trace (basename path) w)
    as (new1 & Hlog1 & Hfs1 & Hcase).
  destruct (find_by_filename env (basename path) true w) as [res1 w1].
  simpl in *. destruct Hcase as [(r1 & -> & Hlive)|[-> Hdead1]].
  - exists new1. simpl. split; [assumption|].
    intros ev Hin Hv. rewrite (Hlive ev Hin) in Hv. discriminate.
  - assert (Hmiss : exists new : list ProbeEvent,
               probe_log w1 = (new ++ probe_log w)%list /\
               forall ev, In ev new -> verdict ev = false ->
                 invalidated (probed_id ev) (uploads w1) /\
                 forall found r,
                   @Returned (bool * option Row) (false, None) =
                     Returned (found, Some r) ->
                   id r <> probed_id ev).
    { exists new1. split; [assumption|]. intros ev Hin Hv.
      split; [now apply Hdead1|]. intros found r [=]. }
    destruct (fs w1 path) as [f|]; [|exact Hmiss].
    destruct (content f) as [b|]; [|exact Hmiss].
    destruct (truthy (sha256_hexdigest env b)); [|exact Hmiss].
    clear Hmiss.
    destruct (find_by_hash_trace (sha256_hexdigest env b) w1)
      as (new2 & Hlog2 & _ & Hkeep2 & Hdead2 & Hsome2 & o2 & Ho2).
    destruct (find_by_hash env (sha256_hexdigest env b) true w1)
      as [res2 w2].
    simpl in *. subst res2.
    exists (new2 ++ new1)%list.
    destruct o2 as [r2|]; simpl.
    + split; [rewrite Hlog2, Hlog1; apply app_assoc|].
      destruct (Hsome2 r2 eq_refl) as [Hin2 Hv2].
      intros ev Hin Hv. apply in_app_or in Hin. destruct Hin as [Hin|Hin].
      * destruct (Hdead2 ev Hin Hv) as [[=] _].
      * pose proof (Hkeep2 _ (Hdead1 ev Hin)) as Hinv.
        split; [assumption|].
        intros found r [= _ <-] Heq.
        specialize (Hinv r2 Hin2 Heq). lia.
    + split; [rewrite Hlog2, Hlog1; apply app_assoc|].
      intros ev Hin Hv. split; [|intros found r [=]].
      apply in_app_or in Hin. destruct Hin as [Hin|Hin].
      * now apply Hdead2.
      * apply Hkeep2. now apply Hdead1.
Qed.
End Resolve.

(** The probe history of a resolution that meets a dead URL: the server
    answers 404 for the only candidate. *)
Example resolve_dead_photo :
  let out := check_file_in_database Examples.env_dead "/tmp/photo.png"
               Examples.one_photo in
  fst out = Returned (false, None) /\
  probe_log (snd out) = [mkProbe 1 "https://x/1" false] /\
  map is_valid (uploads (snd out)) = [0].
Proof. repeat split. Qed.

(** ** Relations every operation maintains *)

Create HintDb stable.

Section Stable.

Variable env : Env.
Variable Rt : list Row -> list Row -> Prop.

Hypothesis Rt_refl : forall t, Rt t t.
Hypothesis Rt_trans : forall t1 t2 t3, Rt t1 t2 -> Rt t2 t3 -> Rt t1 t3.
Hypothesis Rt_invalidate :
  forall rid ts t, Rt t (Sql.update_invalidate rid ts t).
Hypothesis Rt_verify :
  forall rid now ts t, Rt t (Sql.update_last_verified rid now ts t).
Hypothesis Rt_insert :
  forall t seq name u path size hash date ver meta ts,
    Rt t (t ++ [mkRow (Sql.next_rowid seq t) name u path size hash date
                      (Some ver) 1 meta ts ts])%list.

Lemma stable_same_table {A : Type} (m : M A) :
  (forall w, uploads (snd (m w)) = uploads w) -> stable Rt m.
Proof. intros H w. rewrite H. apply Rt_refl. Qed.

Lemma stable_ret {A : Type} (a : A) : stable Rt (ret a).
Proof. now apply stable_same_table. Qed.

Lemma stable_raise {A : Type} (e : exn) : stable Rt (@raise A e).
Proof. now apply stable_same_table. Qed.

Lemma stable_bind {A B : Type} (m : M A) (k : A -> M B) :
  stable Rt m -> (forall a, stable Rt (k a)) -> stable Rt (bind m k).
Proof.
  intros Hm Hk w. unfold bind. specialize (Hm w).
  destruct (m w) as [[a|e] w']; simpl in *; [|assumption].
  eapply Rt_trans; [exact Hm|apply Hk].
Qed.

Lemma stable_try_except {A : Type} (body : M A) (catches : exn -> bool)
    (handler : exn -> M A) :
  stable Rt body -> (forall e, stable Rt (handler e)) ->
  stable Rt (try_except body catches handler).
Proof.
  intros Hb Hh w. unfold try_except. specialize (Hb w).
  destruct (body w) as [[a|e] w']; simpl in *; [assumption|].
  destruct (catches e); simpl; [|assumption].
  eapply Rt_trans; [exact Hb|apply Hh].
Qed.

(** [w <- get_world ;; set_uploads (f (uploads w)) ;; k] *)
Lemma stable_update {A : Type} (f : list Row -> list Row) (k : unit -> M A) :
  (forall t, Rt t (f t)) -> (forall x, stable Rt (k x)) ->
  stable Rt (bind get_world
               (fun w => bind (set_uploads (f (uploads w))) k)).
Proof.
  intros Hf Hk w. unfold bind, get_world, set_uploads.
  eapply Rt_trans; [apply (Hf (uploads w))|].
  apply (Hk tt (mkWorld (f (uploads w)) (sqlite_sequence w) (fs w)
                        (instant w) (probe_log w) (stdout w))).
Qed.

Lemma stable_get_world {A : Type} (k : World -> M A) :
  (forall w, stable Rt (k w)) -> stable Rt (bind get_world k).
Proof. intros Hk w. unfold bind, get_world. apply Hk. Qed.

Lemma stable_tick : stable Rt tick.
Proof. now apply stable_same_table. Qed.

Lemma stable_print (m : Msg) : stable Rt (print m).
Proof. now apply stable_same_table. Qed.

Lemma stable_note_probe (ev : ProbeEvent) : stable Rt (note_probe ev).
Proof. now apply stable_same_table. Qed.

Lemma stable_os_path_exists (p : string) : stable Rt (os_path_exists p).
Proof. now apply stable_same_table. Qed.

Lemma stable_os_path_getsize (p : string) : stable Rt (os_path_getsize p).
Proof.
  apply stable_same_table. intros w. unfold os_path_getsize.
  destruct (fs w p) as [f|]; [destruct (st_size f)|]; reflexivity.
Qed.

Lemma stable_read_bytes (p : string) : stable Rt (read_bytes p).
Proof.
  apply stable_same_table. intros w. unfold read_bytes.
  destruct (fs w p) as [f|]; [destruct (content f)|]; reflexivity.
Qed.

Lemma stable_get_stats : stable Rt get_stats.
Proof. now apply stable_same_table. Qed.

Lemma stable_search_uploads (query : string) (limit : Z) :
  stable Rt (search_uploads query limit).
Proof. now apply stable_same_table. Qed.

Lemma stable_invalidate_record (rid : Z) :
  stable Rt (invalidate_record env rid).
Proof. intros w. rewrite invalidate_record_run. apply Rt_invalidate. Qed.

Lemma stable_execute_insert name u path size hash date ver meta :
  stable Rt (execute_insert env name u path size hash date ver meta).
Proof.
  intros w. unfold execute_insert, bind, tick. simpl.
  destruct (insert_fault env (instant w)); simpl;
    [apply Rt_refl|apply Rt_insert].
Qed.

#[local] Hint Resolve stable_ret stable_raise stable_tick stable_print
  stable_note_probe stable_os_path_exists stable_os_path_getsize
  stable_read_bytes stable_get_stats stable_search_uploads
  stable_invalidate_record stable_execute_insert : stable.

(** One step through the syntax of a computation. *)
Ltac stable_step :=
  match goal with
  | |- stable _ (bind get_world (fun w => bind (set_uploads _) _)) =>
      apply stable_update; [auto|intros ?]
  | |- stable _ (bind get_world _) => apply stable_get_world; intros ?
  | |- stable _ (bind _ _) => apply stable_bind; [|intros ?]
  | |- stable _ (try_except _ _ _) => apply stable_try_except; [|intros ?]
  | |- stable _ (match ?x with _ => _ end) => destruct x
  | |- stable _ (let _ := _ in _) => cbv zeta
  | |- _ => solve [auto with stable]
  end.

Ltac stable_walk := repeat stable_step.

Lemma stable_CURRENT_TIMESTAMP : stable Rt (CURRENT_TIMESTAMP env).
Proof. unfold CURRENT_TIMESTAMP. stable_walk. Qed.

Lemma stable_datetime_now : stable Rt (datetime_now_isoformat env).
Proof. unfold datetime_now_isoformat. stable_walk. Qed.

Lemma stable_requests_head u timeout : stable Rt (requests_head env u timeout).
Proof. unfold requests_head. stable_walk. Qed.

#[local] Hint Resolve stable_CURRENT_TIMESTAMP stable_datetime_now
  stable_requests_head : stable.

Lemma stable_calculate_file_hash p : stable Rt (calculate_file_hash env p).
Proof. unfold calculate_file_hash. stable_walk. Qed.

Lemma stable_check_url_validity u timeout :
  stable Rt (check_url_validity env u timeout).
Proof. unfold check_url_validity. stable_walk. Qed.

#[local] Hint Resolve stable_calculate_file_hash stable_check_url_validity : stable.

Lemma stable_url_is_dead v r : stable Rt (url_is_dead env v r).
Proof. unfold url_is_dead. stable_walk. Qed.

#[local] Hint Resolve stable_url_is_dead : stable.

Lemma stable_find_by_filename name v : stable Rt (find_by_filename env name v).
Proof. unfold find_by_filename. stable_walk. Qed.

Lemma stable_find_by_hash h v : stable Rt (find_by_hash env h v).
Proof. unfold find_by_hash. stable_walk. Qed.

Lemma stable_size_and_hash path : stable Rt (size_and_hash env path).
Proof. unfold size_and_hash. stable_walk. Qed.

#[local] Hint Resolve stable_size_and_hash : stable.

Lemma stable_insert_upload name u path meta :
  stable Rt (insert_upload env name u path meta).
Proof. unfold insert_upload. stable_walk. Qed.

#[local] Hint Resolve stable_find_by_filename stable_find_by_hash
  stable_insert_upload : stable.

Lemma stable_cleanup_loop records count :
  stable Rt (cleanup_loop env records count).
Proof.
  revert count. induction records as [|[rid u] rest IH]; intros count;
    simpl; stable_walk.
Qed.

Lemma stable_cleanup_invalid_urls batch_size :
  stable Rt (cleanup_invalid_urls env batch_size).
Proof.
  unfold cleanup_invalid_urls. stable_step. apply stable_cleanup_loop.
Qed.

Lemma stable_migrate_loop items count :
  stable Rt (migrate_loop env items count).
Proof.
  revert count. induction items as [|[name u] rest IH]; intros count;
    simpl; stable_walk.
Qed.

#[local] Hint Resolve stable_cleanup_loop stable_migrate_loop : stable.

Lemma stable_migrate_from_json p : stable Rt (migrate_from_json env p).
Proof. unfold migrate_from_json. stable_walk. Qed.

Lemma stable_check_file_in_database p :
  stable Rt (check_file_in_database env p).
Proof. unfold check_file_in_database. stable_walk. Qed.

Lemma stable_run_local_fal_upload p :
  stable Rt (run_local_fal_upload env p).
Proof. unfold run_local_fal_upload. stable_walk. Qed.

#[local] Hint Resolve stable_check_file_in_database stable_run_local_fal_upload
  : stable.

Lemma stable_register_upload name u p :
  stable Rt (register_upload env name u p).
Proof. unfold register_upload. stable_walk. Qed.

#[local] Hint Resolve stable_register_upload : stable.

Lemma stable_upload_new name p : stable Rt (upload_new env name p).
Proof. unfold upload_new. stable_walk. Qed.

#[local] Hint Resolve stable_upload_new : stable.

Lemma stable_upload_with_database_wrapper argv p :
  stable Rt (upload_with_database_wrapper env argv p).
Proof. unfold upload_with_database_wrapper, init_database. stable_walk. Qed.

Lemma run_op_stable (op : Op) (w : World) :
  Rt (uploads w) (uploads (run_op env op w)).
Proof.
  destruct op; unfold run_op.
  - apply stable_insert_upload.
  - apply stable_find_by_filename.
  - apply stable_find_by_hash.
  - apply stable_invalidate_record.
  - apply stable_cleanup_invalid_urls.
  - apply stable_get_stats.
  - apply stable_search_uploads.
  - apply stable_migrate_from_json.
  - apply stable_check_file_in_database.
  - apply stable_upload_with_database_wrapper.
  - apply Rt_refl.
Qed.

Lemma run_ops_stable (ops : list Op) (w : World) :
  Rt (uploads w) (uploads (run_ops env ops w)).
Proof.
  revert w. induction ops as [|op rest IH]; intros w; simpl.
  - apply Rt_refl.
  - eapply Rt_trans; [apply run_op_stable|apply IH].
Qed.

End Stable.

(** ** Invalidation is final *)

Section Evolution.

Lemma row_evolves_refl (r : Row) : row_evolves r r.
Proof. unfold row_evolves. tauto. Qed.

Lemma row_evolves_trans (r1 r2 r3 : Row) :
  row_evolves r1 r2 -> row_evolves r2 r3 -> row_evolves r1 r3.
Proof.
  unfold row_evolves.
  intros (A1 & A2 & A3 & A4 & A5 & A6 & A7) (B1 & B2 & B3 & B4 & B5 & B6 & B7).
  repeat split; try congruence. auto.
Qed.

Lemma rows_evolve_refl (t : list Row) : Forall2 row_evolves t t.
Proof.
  induction t; constructor; [apply row_evolves_refl|assumption].
Qed.

Lemma rows_evolve_trans (t1 t2 t3 : list Row) :
  Forall2 row_evolves t1 t2 -> Forall2 row_evolves t2 t3 ->
  Forall2 row_evolves t1 t3.
Proof.
  intros H12. revert t3.
  induction H12 as [|r1 r2 t1 t2 Hr _ IH]; intros t3 H23;
    inversion H23; subst; constructor.
  - eapply row_evolves_trans; eassumption.
  - now apply IH.
Qed.

Lemma rows_evolve_map (f : Row -> Row) (t : list Row) :
  (forall r, row_evolves r (f r)) -> Forall2 row_evolves t (map f t).
Proof. intros Hf. induction t; simpl; constructor; auto. Qed.

Lemma evolves_refl (t : list Row) : evolves t t.
Proof.
  exists t, []. split; [now rewrite app_nil_r|apply rows_evolve_refl].
Qed.

Lemma evolves_trans (t1 t2 t3 : list Row) :
  evolves t1 t2 -> evolves t2 t3 -> evolves t1 t3.
Proof.
  intros (k1 & a1 & -> & H1) (k2 & a2 & -> & H2).
  apply Forall2_app_inv_l in H2.
  destruct H2 as (k2a & k2b & Ha & Hb & ->).
  exists k2a, (k2b ++ a2)%list. split; [now rewrite app_assoc|].
  eapply rows_evolve_trans; eassumption.
Qed.

Lemma evolves_map (f : Row -> Row) (t : list Row) :
  (forall r, row_evolves r (f r)) -> evolves t (map f t).
Proof.
  intros Hf. exists (map f t), []. split; [now rewrite app_nil_r|].
  now apply rows_evolve_map.
Qed.

Lemma evolves_invalidate (rid ts : Z) (t : list Row) :
  evolves t (Sql.update_invalidate rid ts t).
Proof.
  apply evolves_map. intros r. destruct (id r =? rid).
  - unfold row_evolves. simpl. tauto.
  - apply row_evolves_refl.
Qed.

Lemma evolves_verify (rid now ts : Z) (t : list Row) :
  evolves t (Sql.update_last_verified rid now ts t).
Proof.
  apply evolves_map. intros r. destruct (id r =? rid).
  - unfold row_evolves. simpl. tauto.
  - apply row_evolves_refl.
Qed.

Lemma evolves_insert (t : list Row) (r : Row) : evolves t (t ++ [r]).
Proof. exists t, [r]. split; [reflexivity|apply rows_evolve_refl]. Qed.

Lemma evolves_nth (t t' : list Row) (i : nat) (r : Row) :
  evolves t t' -> nth_error t i = Some r ->
  exists r', nth_error t' i = Some r' /\ row_evolves r r'.
Proof.
  intros (kept & added & -> & H). revert i.
  induction H as [|x y t kept Hxy _ IH]; intros i Hi.
  - destruct i; discriminate.
  - destruct i as [|i]; simpl in *.
    + injection Hi as <-. eauto.
    + now apply IH.
Qed.

End Evolution.

(** C5.  Whatever operations follow, in whatever environment and whether
    they return or raise, a row whose [is_valid] is 0 stays at its place
    in the table, keeps its id, and still has [is_valid] 0. *)
Theorem invalidation_is_monotonic (env : Env) (ops : list Op) (w : World)
    (i : nat) (r : Row) :
  nth_error (uploads w) i = Some r ->
  is_valid r = 0 ->
  exists r',
    nth_error (uploads (run_ops env ops w)) i = Some r' /\
    id r' = id r /\ is_valid r' = 0.
Proof.
  intros Hnth Hzero.
  assert (Hev : evolves (uploads w) (uploads (run_ops env ops w))).
  { apply run_ops_stable.
    - apply evolves_refl.
    - apply evolves_trans.
    - apply evolves_invalidate.
    - apply evolves_verify.
    - intros. apply evolves_insert. }
  destruct (evolves_nth _ _ _ _ Hev Hnth) as (r' & Hnth' & Hrow).
  exists r'. destruct Hrow as (Hid & _ & _ & _ & _ & _ & Hflag). auto.
Qed.

Lemma invalidation_is_monotonic_witness :
  exists r',
    nth_error
      (uploads
         (run_ops Examples.env_live
            [OpInsert "photo.png" "https://x/2" None None;
             OpFindByFilename "photo.png" true;
             OpCleanup 100;
             OpMigrate "legacy.json";
             OpResolve "/tmp/photo.png"]
            Examples.retired_photo)) 0 = Some r' /\
    id r' = 1 /\ is_valid r' = 0.
Proof.
  apply (invalidation_is_monotonic Examples.env_live _ Examples.retired_photo
           0 (Sql.set_invalid 1700000000
                (Examples.row 1 "photo.png" "https://x/1" 1 1700000000)));
    reflexivity.
Defined.

(** ** The flag is a boolean, and the statistics add up *)

Section Flags.

Lemma flags_boolean_invalidate (rid ts : Z) (t : list Row) :
  flags_boolean t -> flags_boolean (Sql.update_invalidate rid ts t).
Proof.
  intros H r Hin. apply in_map_iff in Hin. destruct Hin as (r0 & <- & Hin).
  destruct (id r0 =? rid); [left; reflexivity|now apply H].
Qed.

Lemma flags_boolean_verify (rid now ts : Z) (t : list Row) :
  flags_boolean t -> flags_boolean (Sql.update_last_verified rid now ts t).
Proof.
  intros H r Hin. apply in_map_iff in Hin. destruct Hin as (r0 & <- & Hin).
  destruct (id r0 =? rid); simpl; now apply H.
Qed.

Lemma flags_boolean_insert (t : list Row) (r : Row) :
  is_valid r = 1 -> flags_boolean t -> flags_boolean (t ++ [r]).
Proof.
  intros Hr H r' Hin. apply in_app_or in Hin.
  destruct Hin as [Hin|[<-|[]]]; [now apply H|now right].
Qed.

Lemma flags_boolean_preserved (env : Env) (ops : list Op) (w : World) :
  flags_boolean (uploads w) -> flags_boolean (uploads (run_ops env ops w)).
Proof.
  apply (run_ops_stable env (fun t t' => flags_boolean t -> flags_boolean t')).
  - auto.
  - auto.
  - intros. now apply flags_boolean_invalidate.
  - intros. now apply flags_boolean_verify.
  - intros. now apply flags_boolean_insert.
Qed.

Lemma length_total_splits (t : list Row) :
  flags_boolean t ->
  List.length (filter (fun _ => true) t) =
  (List.length (filter Sql.valid t) +
   List.length (filter (fun r => (is_valid r =? 0)%Z) t))%nat.
Proof.
  unfold Sql.valid. induction t as [|r t IH]; intros H.
  - reflexivity.
  - assert (Ht : flags_boolean t) by (intros x Hx; apply H; now right).
    specialize (IH Ht). simpl.
    destruct (H r (or_introl eq_refl)) as [E|E]; rewrite E; simpl; lia.
Qed.

Lemma count_total_splits (t : list Row) :
  flags_boolean t ->
  Sql.count (fun _ => true) t =
  Sql.count Sql.valid t + Sql.count (fun r => is_valid r =? 0) t.
Proof.
  intros H. unfold Sql.count. rewrite (length_total_splits t H).
  apply Nat2Z.inj_add.
Qed.

Lemma max_rowid_bound (t : list Row) (r : Row) :
  In r t -> id r <= Sql.max_rowid t.
Proof.
  induction t as [|x t IH]; [intros []|]. simpl.
  intros [->|Hin]; [lia|]. specialize (IH Hin). lia.
Qed.

Lemma next_rowid_fresh (seq : Z) (t : list Row) (r : Row) :
  In r t -> id r < Sql.next_rowid seq t.
Proof.
  intros Hin. pose proof (max_rowid_bound t r Hin).
  unfold Sql.next_rowid. lia.
Qed.

(** The primary key holds of every table the operations build: a new row
    takes an id above every id present. *)
Lemma primary_key_preserved (env : Env) (ops : list Op) (w : World) :
  primary_key (uploads w) -> primary_key (uploads (run_ops env ops w)).
Proof.
  apply (run_ops_stable env (fun t t' => primary_key t -> primary_key t')).
  - auto.
  - auto.
  - intros rid ts t. unfold primary_key, Sql.update_invalidate.
    rewrite map_map.
    replace (map (fun r => id (if id r =? rid then Sql.set_invalid ts r
                               else r)) t) with (map id t); [auto|].
    apply map_ext. intros r. now destruct (id r =? rid).
  - intros rid now ts t. unfold primary_key, Sql.update_last_verified.
    rewrite map_map.
    replace (map (fun r => id (if id r =? rid then Sql.set_verified now ts r
                               else r)) t) with (map id t); [auto|].
    apply map_ext. intros r. now destruct (id r =? rid).
  - intros t seq name u path size hash date ver meta ts Hkey.
    unfold primary_key in *. rewrite map_app. simpl.
    apply NoDup_app; [assumption|repeat constructor; intros []|].
    intros i Hin [<-|[]]. apply in_map_iff in Hin.
    destruct Hin as (r & Hid & Hin).
    pose proof (next_rowid_fresh seq t r Hin). simpl in Hid. lia.
Qed.

End Flags.

(** C10.  In every world reached from a new database by insert, the two
    lookups, invalidate, the sweep, stats, search, migrate, resolve and
    upload, every row has [is_valid] 0 or 1, and [get_stats] reports
    [total_records = valid_records + invalid_records]. *)
Theorem stats_total_is_valid_plus_invalid (env : Env) (ops : list Op)
    (files : string -> option File) :
  flags_boolean (uploads (run_ops env ops (fresh_world files))) /\
  exists s,
    fst (get_stats (run_ops env ops (fresh_world files))) = Returned s /\
    total_records s = valid_records s + invalid_records s.
Proof.
  assert (H : flags_boolean (uploads (run_ops env ops (fresh_world files)))).
  { apply flags_boolean_preserved. intros r []. }
  split; [exact H|].
  eexists. split; [reflexivity|]. simpl. now apply count_total_splits.
Qed.

(** ** The maintenance sweep *)

Section Sweep.

Variable env : Env.

Lemma mem_cons (i j : Z) (ids : list Z) :
  mem i (j :: ids) = (i =? j) || mem i ids.
Proof. reflexivity. Qed.

Lemma kill_nil (v : list (Z * Z)) : kill [] v = v.
Proof.
  unfold kill. rewrite <- (map_id v) at 2. apply map_ext.
  intros [i x]. reflexivity.
Qed.

Lemma kill_cons (i : Z) (ids : list Z) (v : list (Z * Z)) :
  kill ids (kill [i] v) = kill (i :: ids) v.
Proof.
  unfold kill. rewrite map_map. apply map_ext. intros [j x]. simpl.
  destruct (j =? i); simpl; [|reflexivity].
  destruct (mem j ids); reflexivity.
Qed.

Lemma kill_absent (i : Z) (ids : list Z) (v : list (Z * Z)) :
  ~ In i (map fst v) -> kill (i :: ids) v = kill ids v.
Proof.
  intros Hnot. unfold kill. apply map_ext_in. intros [j x] Hin.
  rewrite mem_cons. simpl.
  destruct (Z.eqb_spec j i) as [->|_]; [|reflexivity].
  destruct Hnot. apply in_map_iff. exists (i, x). auto.
Qed.

Lemma kill_head (ids : list Z) (i x : Z) (rest : list (Z * Z)) :
  kill ids ((i, x) :: rest) =
  (i, if mem i ids then 0 else x) :: kill ids rest.
Proof. reflexivity. Qed.

Lemma filter_flag_head (i x : Z) (rest : list (Z * Z)) :
  filter flag_valid ((i, x) :: rest) =
  if x =? 1 then (i, x) :: filter flag_valid rest
  else filter flag_valid rest.
Proof. reflexivity. Qed.

(** Invalidating the first [k] valid rows leaves the valid rows after
    them. *)
Lemma kill_first_valid (v : list (Z * Z)) :
  NoDup (map fst v) ->
  forall k : nat,
    filter flag_valid (kill (map fst (firstn k (filter flag_valid v))) v) =
    skipn k (filter flag_valid v).
Proof.
  induction v as [|[i x] rest IH]; intros Hnd k.
  - destruct k; reflexivity.
  - inversion Hnd as [|? ? Hnot Hrest]; subst.
    rewrite kill_head, (filter_flag_head i x rest).
    destruct (x =? 1) eqn:Ex.
    + destruct k as [|k].
      * cbn [firstn map skipn mem existsb]. rewrite kill_nil.
        rewrite filter_flag_head, Ex. reflexivity.
      * cbn [firstn map skipn fst]. rewrite mem_cons, Z.eqb_refl.
        cbn [orb]. rewrite filter_flag_head. cbn [Z.eqb].
        rewrite (kill_absent _ _ _ Hnot). now apply IH.
    + rewrite filter_flag_head.
      assert (E0 : ((if mem i (map fst (firstn k (filter flag_valid rest)))
                     then 0 else x) =? 1) = false).
      { destruct (mem _ _); [reflexivity|assumption]. }
      rewrite E0. now apply IH.
Qed.

Lemma validity_ids (t : list Row) : map fst (validity t) = map id t.
Proof. unfold validity. rewrite map_map. reflexivity. Qed.

Lemma validity_filter (t : list Row) :
  filter flag_valid (validity t) = validity (filter Sql.valid t).
Proof.
  induction t as [|r t IH]; [reflexivity|].
  unfold validity in *. simpl. unfold flag_valid at 1, Sql.valid at 1. simpl.
  destruct (is_valid r =? 1); simpl; now rewrite IH.
Qed.

Lemma count_valid_validity (t : list Row) :
  Sql.count Sql.valid t =
  Z.of_nat (List.length (filter flag_valid (validity t))).
Proof.
  rewrite validity_filter. unfold Sql.count, validity.
  now rewrite length_map.
Qed.

Lemma validity_invalidate (rid ts : Z) (t : list Row) :
  validity (Sql.update_invalidate rid ts t) = kill [rid] (validity t).
Proof.
  unfold validity, Sql.update_invalidate, kill. rewrite !map_map.
  apply map_ext. intros r. simpl. rewrite orb_false_r.
  destruct (id r =? rid); reflexivity.
Qed.

Lemma cleanup_loop_dead_step (rid : Z) (u : string)
    (rest : list (Z * string)) (count : Z) (w : World) :
  live env (instant w) u = false ->
  cleanup_loop env ((rid, u) :: rest) count w =
  cleanup_loop env rest (count + 1)
    (mkWorld (Sql.update_invalidate rid
                (current_timestamp env (S (instant w))) (uploads w))
             (sqlite_sequence w) (fs w) (S (S (instant w)))
             (mkProbe rid u false :: probe_log w) (stdout w)).
Proof.
  intros Hdead. cbn [cleanup_loop]. unfold bind at 1.
  rewrite check_url_validity_run. fold (live env (instant w) u).
  rewrite Hdead. reflexivity.
Qed.

(** The loop of the sweep when every fetched URL is dead. *)
Lemma cleanup_loop_all_dead (records : list (Z * string)) :
  (forall rid u n, In (rid, u) records -> live env n u = false) ->
  forall (count : Z) (w : World),
    fst (cleanup_loop env records count w) =
      Returned (count + Z.of_nat (List.length records)) /\
    validity (uploads (snd (cleanup_loop env records count w))) =
      kill (map fst records) (validity (uploads w)).
Proof.
  induction records as [|[rid u] rest IH]; intros Hdead count w.
  - simpl. rewrite kill_nil. split; [f_equal; lia|reflexivity].
  - rewrite cleanup_loop_dead_step
      by (apply (Hdead rid u); now left).
    match goal with
    | |- context [cleanup_loop env rest ?c ?w'] =>
        destruct (IH (fun r x n H => Hdead r x n (or_intror H)) c w')
          as [Hres Htab]
    end.
    split.
    + rewrite Hres. f_equal. cbn [List.length]. lia.
    + rewrite Htab. cbn [uploads map fst snd].
      rewrite validity_invalidate. apply kill_cons.
Qed.

Lemma in_firstn {A : Type} (n : nat) (l : list A) (x : A) :
  In x (firstn n l) -> In x l.
Proof.
  revert l. induction n as [|n IH]; intros [|y l]; simpl; try tauto.
  intros [->|H]; auto.
Qed.

Lemma limit_is_firstn {A : Type} (n : Z) (l : list A) :
  Sql.limit n l =
  firstn (if n <? 0 then List.length l else Z.to_nat n) l.
Proof.
  unfold Sql.limit. destruct (n <? 0); [|reflexivity].
  now rewrite firstn_all.
Qed.

Lemma fetched_is_length (n : Z) (len : nat) :
  fetched n (Z.of_nat len) =
  Z.of_nat (Nat.min (if n <? 0 then len else Z.to_nat n) len).
Proof.
  unfold fetched. destruct (Z.ltb_spec n 0); lia.
Qed.

Lemma cleanup_invalid_urls_run (batch_size : Z) (w : World) :
  cleanup_invalid_urls env batch_size w =
  cleanup_loop env
    (map (fun r => (id r, url r))
         (Sql.limit batch_size (filter Sql.valid (uploads w)))) 0 w.
Proof. reflexivity. Qed.

(** The sweep when every URL of the table is dead. *)
Lemma sweep_all_dead (batch_size : Z) (w : World) :
  primary_key (uploads w) ->
  (forall r n, In r (uploads w) -> live env n (url r) = false) ->
  fst (cleanup_invalid_urls env batch_size w) =
    Returned (fetched batch_size (Sql.count Sql.valid (uploads w))) /\
  Sql.count Sql.valid (uploads (snd (cleanup_invalid_urls env batch_size w))) =
    Sql.count Sql.valid (uploads w) -
    fetched batch_size (Sql.count Sql.valid (uploads w)).
Proof.
  intros Hkey Hdead.
  rewrite cleanup_invalid_urls_run.
  set (valid_rows := filter Sql.valid (uploads w)).
  set (k := if batch_size <? 0 then List.length valid_rows
            else Z.to_nat batch_size).
  rewrite limit_is_firstn. fold k.
  destruct (cleanup_loop_all_dead
              (map (fun r => (id r, url r)) (firstn k valid_rows))) with
    (count := 0) (w := w) as [Hres Htab].
  { intros rid u n Hin. apply in_map_iff in Hin.
    destruct Hin as (r & [= <- <-] & Hin). apply Hdead.
    apply in_firstn in Hin. unfold valid_rows in Hin.
    apply filter_In in Hin. tauto. }
  assert (Hcount : Sql.count Sql.valid (uploads w) =
                   Z.of_nat (List.length valid_rows)) by reflexivity.
  rewrite Hcount, fetched_is_length. fold k. split.
  - rewrite Hres, length_map, length_firstn. reflexivity.
  - rewrite count_valid_validity, Htab, map_map. cbn [fst].
    replace (map (fun r => id r) (firstn k valid_rows))
      with (map fst (firstn k (filter flag_valid (validity (uploads w))))).
    + rewrite kill_first_valid
        by (rewrite validity_ids; exact Hkey).
      rewrite length_skipn, validity_filter. fold valid_rows.
      unfold validity. rewrite length_map. lia.
    + rewrite validity_filter. fold valid_rows. unfold validity.
      rewrite firstn_map, map_map. reflexivity.
Qed.

End Sweep.

(** C6, as the code has it.  When every URL stored in the table fails
    the probe, [cleanup_invalid_urls(batch_size)] returns the number of
    rows it fetched, which is the smaller of [batch_size] and the number
    [V] of valid rows (all [V] of them for a negative [batch_size]), and
    it leaves [V] minus that many valid rows.  With [batch_size = 100]
    the result is [V] and no valid row is left exactly when [V <= 100]. *)
Theorem sweep_invalidates_one_batch (env : Env) (w : World) :
  primary_key (uploads w) ->
  (forall r n, In r (uploads w) -> live env n (url r) = false) ->
  let valid_before := Sql.count Sql.valid (uploads w) in
  let out := cleanup_invalid_urls env 100 w in
  fst out = Returned (Z.min 100 valid_before) /\
  Sql.count Sql.valid (uploads (snd out)) =
    valid_before - Z.min 100 valid_before /\
  (valid_before <= 100 ->
   fst out = Returned valid_before /\
   Sql.count Sql.valid (uploads (snd out)) = 0).
Proof.
  intros Hkey Hdead valid_before out.
  destruct (sweep_all_dead env 100 w Hkey Hdead) as [Hres Hleft].
  fold valid_before in Hres, Hleft. fold out in Hres, Hleft.
  change (fetched 100 valid_before) with (Z.min 100 valid_before) in *.
  split; [exact Hres|]. split; [exact Hleft|].
  intros Hle. rewrite Hres, Hleft. split; [f_equal|]; lia.
Qed.

Lemma sweep_invalidates_one_batch_witness :
  fst (cleanup_invalid_urls Examples.env_dead 100 Examples.one_photo) =
    Returned 1 /\
  Sql.count Sql.valid
    (uploads (snd (cleanup_invalid_urls Examples.env_dead 100
                     Examples.one_photo))) = 0.
Proof.
  refine ((fun H => proj2 (proj2 H) _)
            (sweep_invalidates_one_batch Examples.env_dead Examples.one_photo
               _ _)).
  - vm_compute. discriminate.
  - vm_compute. repeat constructor. intros [].
  - intros r n _. reflexivity.
Defined.

(** C6 as stated fails on a table of 101 valid rows whose URLs are all
    dead: the sweep returns 100, not 101, and one valid row is left. *)
Lemma sweep_stops_at_batch_size :
  (forall r n, In r (uploads Examples.big_store) ->
               live Examples.env_dead n (url r) = false) /\
  Sql.count Sql.valid (uploads Examples.big_store) = 101 /\
  fst (cleanup_invalid_urls Examples.env_dead 100 Examples.big_store) =
    Returned 100 /\
  Sql.count Sql.valid
    (uploads (snd (cleanup_invalid_urls Examples.env_dead 100
                     Examples.big_store))) = 1.
Proof.
  split; [intros r n _; reflexivity|].
  split; [vm_compute; reflexivity|].
  split; vm_compute; reflexivity.
Qed.

(** ** Insert, then resolve *)

Section RoundTrip.

Variable env : Env.

(** The block that sizes and hashes the file never raises an [Exception]
    and leaves the world as it is. *)
Lemma size_and_hash_run (path : option string) (w : World) :
  exists sized, size_and_hash env path w = (Returned sized, w).
Proof.
  unfold size_and_hash. destruct path as [p|]; [|eexists; reflexivity].
  destruct (truthy p); [|eexists; reflexivity].
  unfold bind at 1, os_path_exists.
  destruct (fs w p) as [f|] eqn:Ef; [|eexists; reflexivity].
  unfold try_except at 1, bind at 1, os_path_getsize. rewrite Ef.
  destruct (st_size f) as [n|]; [|eexists; reflexivity].
  unfold try_except at 1, bind at 1, calculate_file_hash, try_except,
    bind at 1, read_bytes.
  rewrite Ef. destruct (content f); eexists; reflexivity.
Qed.

(** A readable file is stored with its size and the digest of its bytes. *)
Lemma size_and_hash_readable (p : string) (w : World) (n : Z)
    (b : list byte) :
  truthy p = true -> fs w p = Some (mkFile (Some n) (Some b)) ->
  size_and_hash env (Some p) w =
  (Returned (Some n, Some (sha256_hexdigest env b)), w).
Proof.
  intros Hp Ef. unfold size_and_hash. rewrite Hp.
  unfold bind at 1, os_path_exists. rewrite Ef.
  unfold try_except at 1, bind at 1, os_path_getsize. rewrite Ef. simpl.
  unfold try_except at 1, bind at 1, calculate_file_hash, try_except,
    bind at 1, read_bytes.
  rewrite Ef. reflexivity.
Qed.

(** An insert that returns has appended one valid row with the new id. *)
Lemma insert_upload_returned (name u : string) (path meta : option string)
    (w w1 : World) (rid : Z) :
  insert_upload env name u path meta w = (Returned rid, w1) ->
  exists size hash date ver ts,
    uploads w1 =
      (uploads w ++
       [mkRow rid name u path size hash date (Some ver) 1 meta ts ts])%list /\
    rid = Sql.next_rowid (sqlite_sequence w) (uploads w) /\
    fs w1 = fs w /\
    size_and_hash env path w = (Returned (size, hash), w).
Proof.
  unfold insert_upload, bind at 1.
  destruct (size_and_hash_run path w) as ([size hash] & Hs). rewrite Hs.
  unfold bind, datetime_now_isoformat, execute_insert, bind, tick, ret,
    get_world, set_uploads, set_sqlite_sequence, raise. simpl.
  destruct (insert_fault env (S (S (instant w)))); [discriminate|].
  intros [= <- <-]. simpl. eauto 10.
Qed.

Lemma filename_is_true (name : string) (r : Row) :
  Sql.filename_is name r = true <-> filename r = name.
Proof. unfold Sql.filename_is. apply String.eqb_eq. Qed.

Lemma resolve_by_filename_live (p : string) (w : World) (r : Row) :
  Sql.select_latest_valid (Sql.filename_is (basename p)) (uploads w) = Some r ->
  live env (instant w) (url r) = true ->
  check_file_in_database env p w =
  (Returned (true, Some r), verified env (id r) (probed r true w)).
Proof.
  intros Hsel Hlive. rewrite check_file_in_database_run, find_by_filename_run.
  rewrite Hsel, Hlive. reflexivity.
Qed.

End RoundTrip.

(** C7, as the code has it.  After an insert of [name] and [u] that
    returned, resolving a path whose final component is [name], with every
    probe answering 200, returns found with a record named [name]; that
    record is the inserted one, with url [u], provided every valid row
    already stored under [name] has a [created_at] strictly earlier than
    the inserted row's. *)
Theorem insert_then_resolve (env : Env) (name u : string)
    (path meta : option string) (p : string) (w w1 : World) (rid : Z) :
  insert_upload env name u path meta w = (Returned rid, w1) ->
  basename p = name ->
  (forall n x, live env n x = true) ->
  exists r w2,
    check_file_in_database env p w1 = (Returned (true, Some r), w2) /\
    filename r = name /\
    ((forall old new, In old (uploads w) -> In new (uploads w1) ->
        id new = rid -> filename old = name -> is_valid old = 1 ->
        created_at old < created_at new) ->
     id r = rid /\ url r = u).
Proof.
  intros Hins Hbase Hlive.
  destruct (insert_upload_returned env _ _ _ _ _ _ _ Hins)
    as (size & hash & date & ver & ts & Htab & Hrid & _ & _).
  set (new := mkRow rid name u path size hash date (Some ver) 1 meta ts ts)
    in Htab.
  assert (Hnew : In new (uploads w1)).
  { rewrite Htab. apply in_or_app. right. now left. }
  destruct (Sql.select_latest_valid (Sql.filename_is name) (uploads w1))
    as [r|] eqn:Hsel.
  2:{ apply select_latest_valid_none in Hsel.
      destruct (Hsel new Hnew); [now apply filename_is_true|reflexivity]. }
  exists r, (verified env (id r) (probed r true w1)).
  split; [|split].
  - apply resolve_by_filename_live; [now rewrite Hbase|apply Hlive].
  - apply select_latest_valid_some in Hsel.
    destruct Hsel as (_ & Hk & _). now apply filename_is_true.
  - intros Hold.
    assert (Hsel' : Sql.select_latest_valid (Sql.filename_is name)
                      (uploads w1) = Some new).
    { apply select_latest_valid_strict; auto.
      - now apply filename_is_true.
      - intros r' Hin' Hk' Hv'. rewrite Htab in Hin'.
        apply in_app_or in Hin'. destruct Hin' as [Hin'|[<-|[]]]; [|now left].
        right. apply Hold; auto. now apply filename_is_true. }
    rewrite Hsel in Hsel'. injection Hsel' as ->. split; reflexivity.
Qed.

(** The newest row wins only if it carries the latest stamp: a row
    stamped ahead of the clock hides every later insert of its name. *)
Example resolve_prefers_later_stamp :
  exists r,
    fst (check_file_in_database Examples.env_live "/tmp/photo.png"
           (snd (insert_upload Examples.env_live "photo.png" "https://x/2"
                   None None Examples.stamped_ahead))) =
      Returned (true, Some r) /\
    url r = "https://x/1".
Proof. eexists. split; [vm_compute; reflexivity|reflexivity]. Qed.

Lemma insert_then_resolve_witness :
  exists r w2,
    check_file_in_database Examples.env_ticking "/tmp/photo.png"
      (snd (insert_upload Examples.env_ticking "photo.png" "https://x/2"
              None None Examples.one_photo)) =
      (Returned (true, Some r), w2) /\
    id r = 2 /\ url r = "https://x/2".
Proof.
  destruct (insert_then_resolve Examples.env_ticking "photo.png"
              "https://x/2" None None "/tmp/photo.png" Examples.one_photo
              (snd (insert_upload Examples.env_ticking "photo.png"
                      "https://x/2" None None Examples.one_photo))
              2 eq_refl eq_refl (fun _ _ => eq_refl))
    as (r & w2 & Hres & _ & Hsame).
  exists r, w2. split; [exact Hres|]. apply Hsame.
  intros old new [<-|[]] [<-|[<-|[]]] Hid _ _; [discriminate Hid|].
  vm_compute. reflexivity.
Defined.

(** C7 as stated fails when the file name is inserted twice within one
    second of SQLite's clock: both rows carry the same [created_at], the
    SELECT keeps the earlier one, and resolution returns the first url. *)
Lemma resolve_after_second_insert_returns_first_url :
  let w := run_ops Examples.env_live
             [OpInsert "photo.png" "https://x/1" None None]
             (fresh_world Examples.no_files) in
  let inserted := insert_upload Examples.env_live "photo.png" "https://x/2"
                    None None w in
  fst inserted = Returned 2 /\
  (forall n x, live Examples.env_live n x = true) /\
  exists r,
    fst (check_file_in_database Examples.env_live "/tmp/photo.png"
           (snd inserted)) = Returned (true, Some r) /\
    url r = "https://x/1" /\ url r <> "https://x/2".
Proof.
  split; [reflexivity|]. split; [reflexivity|].
  eexists. split; [vm_compute; reflexivity|]. split; [reflexivity|].
  discriminate.
Qed.

(** ** Hash fallback *)

Section HashFallback.

Variable env : Env.

Lemma file_hash_is_true (h : string) (r : Row) :
  Sql.file_hash_is h r = true <-> file_hash r = Some h.
Proof.
  unfold Sql.file_hash_is. destruct (file_hash r) as [h'|].
  - rewrite String.eqb_eq. split; [intros ->; reflexivity|now intros [= ->]].
  - split; discriminate.
Qed.

(** Under the primary key two rows with one id are one row. *)
Lemma primary_key_inj (t : list Row) (r1 r2 : Row) :
  primary_key t -> In r1 t -> In r2 t -> id r1 = id r2 -> r1 = r2.
Proof.
  unfold primary_key. induction t as [|x t IH]; [intros _ []|].
  simpl. intros Hnd H1 H2 Hid. inversion Hnd as [|? ? Hnot Hrest]; subst.
  destruct H1 as [<-|H1], H2 as [<-|H2]; auto.
  - destruct Hnot. rewrite Hid. now apply in_map.
  - destruct Hnot. rewrite <- Hid. now apply in_map.
Qed.

(** Invalidating another id leaves [r] the newest valid row of its hash. *)
Lemma select_by_hash_after_invalidate (h : string) (t : list Row)
    (r : Row) (rid ts : Z) :
  In r t -> is_valid r = 1 -> file_hash r = Some h -> id r <> rid ->
  (forall r', In r' t -> file_hash r' = Some h -> is_valid r' = 1 ->
              r' = r \/ created_at r' < created_at r) ->
  Sql.select_latest_valid (Sql.file_hash_is h)
    (Sql.update_invalidate rid ts t) = Some r.
Proof.
  intros Hin Hv Hh Hid Hnewest. apply select_latest_valid_strict; auto.
  - unfold Sql.update_invalidate. apply in_map_iff. exists r.
    split; [|assumption].
    destruct (Z.eqb_spec (id r) rid); [contradiction|reflexivity].
  - now apply file_hash_is_true.
  - intros r' Hin' Hk' Hv'. unfold Sql.update_invalidate in Hin'.
    apply in_map_iff in Hin'. destruct Hin' as (r0 & <- & Hin0).
    destruct (id r0 =? rid); [discriminate Hv'|].
    apply Hnewest; auto. now apply file_hash_is_true.
Qed.

End HashFallback.

(** C8, as the code has it.  Let [r] be a valid row whose hash is the
    digest of the bytes of the readable file at [p], stored under another
    file name, and strictly newer than every other valid row with that
    hash.  If the lookup by the file name of [p] misses and [r]'s URL is
    live, resolution of [p] returns found and [r]. *)
Theorem resolve_falls_back_to_hash (env : Env) (p : string) (w : World)
    (r : Row) (f : File) (b : list byte) :
  primary_key (uploads w) ->
  fs w p = Some f -> content f = Some b ->
  truthy (sha256_hexdigest env b) = true ->
  In r (uploads w) -> is_valid r = 1 ->
  file_hash r = Some (sha256_hexdigest env b) ->
  filename r <> basename p ->
  (forall r', In r' (uploads w) ->
     file_hash r' = Some (sha256_hexdigest env b) -> is_valid r' = 1 ->
     r' = r \/ created_at r' < created_at r) ->
  fst (find_by_filename env (basename p) true w) = Returned None ->
  (forall n, live env n (url r) = true) ->
  exists w',
    check_file_in_database env p w = (Returned (true, Some r), w').
Proof.
  intros Hkey Hfs Hcontent Hdigest Hin Hv Hh Hname Hnewest Hmiss Hlive.
  rewrite check_file_in_database_run.
  rewrite find_by_filename_run in Hmiss |- *.
  destruct (Sql.select_latest_valid (Sql.filename_is (basename p)) (uploads w))
    as [c|] eqn:Hsel.
  - destruct (live env (instant w) (url c)) eqn:Hc; [discriminate Hmiss|].
    cbn [andb negb]. rewrite invalidate_record_run. cbn [snd fs probed].
    rewrite Hfs, Hcontent, Hdigest, find_by_hash_run.
    cbn [uploads instant probed].
    apply select_latest_valid_some in Hsel.
    destruct Hsel as (Hinc & Hkc & _).
    apply filename_is_true in Hkc.
    rewrite (select_by_hash_after_invalidate _ _ r); auto.
    + rewrite Hlive. cbn [andb negb]. eexists. reflexivity.
    + intros Hid. apply Hname. rewrite <- Hkc. f_equal.
      now apply (primary_key_inj (uploads w)).
  - rewrite Hfs, Hcontent, Hdigest, find_by_hash_run.
    rewrite (select_latest_valid_strict _ _ r); auto.
    + rewrite Hlive. cbn [andb negb]. eexists. reflexivity.
    + now apply file_hash_is_true.
    + intros r' Hin' Hk' Hv'. apply Hnewest; auto.
      now apply file_hash_is_true.
Qed.

Lemma resolve_falls_back_to_hash_witness :
  exists w',
    check_file_in_database Examples.env_live "/tmp/renamed.png"
      Examples.hashed_photo =
    (Returned
       (true,
        Some (mkRow 1 "photo.png" "https://x/1" (Some "/tmp/photo.png")
                (Some 3) (Some "9f86d081884c7d65") 1700000000000000
                (Some 1700000000000001) 1 None 1700000000 1700000000)),
     w').
Proof.
  apply (resolve_falls_back_to_hash Examples.env_live "/tmp/renamed.png" _ _
           Examples.photo [x01; x02; x03]).
  - vm_compute. repeat constructor. intros [].
  - reflexivity.
  - reflexivity.
  - reflexivity.
  - now left.
  - reflexivity.
  - reflexivity.
  - vm_compute. discriminate.
  - intros r' [<-|[]] _ _. now left.
  - reflexivity.
  - reflexivity.
Defined.

(** C8 as stated fails when the same bytes were uploaded again later
    under another name: [photo.png] was inserted with its hash and its
    URL is live, the renamed copy has the same bytes and no record of its
    own, but the hash lookup picks the newer row of [copy.png], whose URL
    is dead, and resolution reports not found. *)
Lemma resolve_misses_older_upload_with_live_url :
  let w := Examples.same_bytes_twice in
  let env := Examples.env_one_live in
  (exists r, In r (uploads w) /\ filename r = "photo.png" /\
             is_valid r = 1 /\
             file_hash r = Some (sha256_hexdigest env [x01; x02; x03]) /\
             forall n, live env n (url r) = true) /\
  fs w "/tmp/renamed.png" = Some (mkFile (Some 3) (Some [x01; x02; x03])) /\
  fst (find_by_filename env "renamed.png" true w) = Returned None /\
  fst (check_file_in_database env "/tmp/renamed.png" w) =
    Returned (false, None).
Proof.
  split; [|repeat split].
  eexists. split; [left; reflexivity|]. repeat split.
Qed.

(** ** The upload wrapper *)

Section Wrapper.

Variable env : Env.

Lemma find_by_filename_frame (name : string) (v : bool) (w : World) :
  fs (snd (find_by_filename env name v w)) = fs w /\
  stdout (snd (find_by_filename env name v w)) = stdout w /\
  exists o, fst (find_by_filename env name v w) = Returned o.
Proof.
  rewrite find_by_filename_run.
  destruct (Sql.select_latest_valid _ _) as [r|]; [|simpl; eauto].
  destruct v; [destruct (live env (instant w) (url r))|]; simpl; eauto.
Qed.

Lemma find_by_hash_frame (h : string) (v : bool) (w : World) :
  fs (snd (find_by_hash env h v w)) = fs w /\
  stdout (snd (find_by_hash env h v w)) = stdout w /\
  exists o, fst (find_by_hash env h v w) = Returned o.
Proof.
  rewrite find_by_hash_run.
  destruct (Sql.select_latest_valid _ _) as [r|]; [|simpl; eauto].
  destruct v; [destruct (live env (instant w) (url r))|]; simpl; eauto.
Qed.

(** Resolution never raises and leaves the file system alone. *)
Lemma check_file_in_database_frame (path : string) (w : World) :
  fs (snd (check_file_in_database env path w)) = fs w /\
  exists res, fst (check_file_in_database env path w) = Returned res.
Proof.
  rewrite check_file_in_database_run.
  destruct (find_by_filename_frame (basename path) true w)
    as (Hfs1 & _ & o1 & Ho1).
  destruct (find_by_filename env (basename path) true w) as [res1 w1].
  simpl in *. subst res1. destruct o1 as [r1|]; [simpl; eauto|].
  destruct (fs w1 path) as [f|]; [|simpl; eauto].
  destruct (content f) as [b|]; [|simpl; eauto].
  destruct (truthy (sha256_hexdigest env b)); [|simpl; eauto].
  destruct (find_by_hash_frame (sha256_hexdigest env b) true w1)
    as (Hfs2 & _ & o2 & Ho2).
  destruct (find_by_hash env (sha256_hexdigest env b) true w1) as [res2 w2].
  simpl in *. subst res2. destruct o2 as [r2|]; simpl; split; eauto; congruence.
Qed.

(** An INSERT that fails makes [insert_upload] raise, the table as it
    was. *)
Lemma insert_upload_fault (name u : string) (path meta : option string)
    (w : World) (e : exn) :
  insert_fault env (S (S (instant w))) = Some e ->
  insert_upload env name u path meta w =
  (Raised e,
   mkWorld (uploads w) (sqlite_sequence w) (fs w) (S (S (S (instant w))))
           (probe_log w) (stdout w)).
Proof.
  intros Hfault. unfold insert_upload, bind at 1.
  destruct (size_and_hash_run env path w) as (sized & Hs). rewrite Hs.
  unfold bind, datetime_now_isoformat, execute_insert, bind, tick, ret.
  simpl. rewrite Hfault. reflexivity.
Qed.

(** The upload proper, when the uploader gives a URL and the INSERT that
    follows fails with an [Exception]. *)
Lemma upload_new_store_failure (name path u : string) (w : World) (f : File)
    (n : Z) (e : exn) :
  fs w path = Some f -> st_size f = Some n ->
  uploader env (instant w) path = Some u -> truthy u = true ->
  insert_fault env (S (S (S (instant w)))) = Some e ->
  is_Exception e = true ->
  upload_new env name path w =
  (Returned (Some u),
   mkWorld (uploads w) (sqlite_sequence w) (fs w)
           (S (S (S (S (instant w))))) (probe_log w)
           (WarningRegisterFailed e :: InfoRegistering name u ::
            UploadSucceeded u :: InfoRunning :: InfoTarget path n ::
            stdout w)).
Proof.
  intros Hfs Hsize Hup Hu Hfault He.
  unfold upload_new, bind at 1, os_path_getsize. rewrite Hfs, Hsize.
  unfold bind at 1, print at 1. unfold bind at 1, print at 1.
  unfold bind at 1, run_local_fal_upload, bind at 1, tick. cbn [instant].
  rewrite Hup, Hu. unfold ret at 1. rewrite Hu.
  unfold bind at 1, print at 1. unfold bind at 1, register_upload.
  unfold bind at 1, print at 1. unfold try_except, bind at 1.
  rewrite (insert_upload_fault _ _ _ _ _ e) by exact Hfault.
  rewrite He. reflexivity.
Qed.

End Wrapper.

(** C9.  Take a run of [upload_with_database_wrapper] on an existing
    file in which the duplicate check does not end the run (it finds
    nothing, or [--force-upload] is given), the uploader returns the
    non-empty URL [u], and the INSERT of [insert_upload] then fails with
    an [Exception] [e].  The wrapper returns [u]; the last line printed is
    the warning about [e]; the table is the one the duplicate check
    left. *)
Theorem upload_survives_store_failure (env : Env) (argv : list string)
    (path u : string) (w w1 : World) (f g : File) (n : Z)
    (res : bool * option Row) (e : exn) :
  fs w path = Some f -> st_size f = Some n ->
  fs w LOCAL_FAL_UPLOAD_SCRIPT = Some g ->
  check_file_in_database env path
    (snd (print (InfoDupCheck (basename path)) w)) = (Returned res, w1) ->
  fst res = false \/ force_upload argv = true ->
  uploader env (instant w1) path = Some u -> truthy u = true ->
  insert_fault env (3 + instant w1) = Some e -> is_Exception e = true ->
  exists w',
    upload_with_database_wrapper env argv path w = (Returned (Some u), w') /\
    hd_error (stdout w') = Some (WarningRegisterFailed e) /\
    uploads w' = uploads w1.
Proof.
  intros Hfs Hsize Hscript Hcheck Hgo Hup Hu Hfault He.
  assert (Hfs1 : fs w1 path = Some f).
  { pose proof (check_file_in_database_frame env path
                  (snd (print (InfoDupCheck (basename path)) w))) as [H _].
    rewrite Hcheck in H. simpl in H. now rewrite H. }
  unfold upload_with_database_wrapper, bind at 1, os_path_exists.
  rewrite Hfs. cbn [negb]. unfold bind at 1. rewrite Hscript. cbn [negb].
  unfold bind at 1, init_database, ret at 1. unfold bind at 1.
  change (print (InfoDupCheck (basename path)) w)
    with (Returned tt, snd (print (InfoDupCheck (basename path)) w)).
  cbv iota. unfold bind at 1. rewrite Hcheck.
  destruct res as [[|] [existing|]]; simpl in Hgo.
  - destruct Hgo as [Hgo|Hgo]; [discriminate|]. rewrite Hgo.
    unfold bind at 1, print at 1. unfold bind at 1, print at 1.
    erewrite upload_new_store_failure; eauto. simpl. eauto.
  - erewrite upload_new_store_failure; eauto. simpl. eauto.
  - erewrite upload_new_store_failure; eauto. simpl. eauto.
  - erewrite upload_new_store_failure; eauto. simpl. eauto.
Qed.

Lemma upload_survives_store_failure_witness :
  exists w',
    upload_with_database_wrapper Examples.env_store_down [] "/tmp/photo.png"
      (fresh_world Examples.disk) = (Returned (Some "https://x/new"), w') /\
    hd_error (stdout w') = Some (WarningRegisterFailed OperationalError) /\
    uploads w' = [].
Proof.
  apply (upload_survives_store_failure Examples.env_store_down []
           "/tmp/photo.png" "https://x/new" (fresh_world Examples.disk)
           (snd (check_file_in_database Examples.env_store_down
                   "/tmp/photo.png"
                   (snd (print (InfoDupCheck "photo.png")
                           (fresh_world Examples.disk)))))
           Examples.photo Examples.photo 3 (false, None) OperationalError);
    try reflexivity.
  now left.
Defined.

(** ** When [last_verified] is written *)

(** [find_by_hash] writes no [last_verified], whatever the probe says. *)
Lemma find_by_hash_keeps_last_verified (env : Env) (h : string) (v : bool)
    (w : World) :
  map last_verified (uploads (snd (find_by_hash env h v w))) =
  map last_verified (uploads w).
Proof.
  rewrite find_by_hash_run.
  destruct (Sql.select_latest_valid _ _) as [r|]; [|reflexivity].
  destruct v; [destruct (live env (instant w) (url r))|]; simpl;
    try reflexivity.
  unfold Sql.update_invalidate. rewrite map_map. apply map_ext.
  intros x. destruct (id x =? id r); reflexivity.
Qed.

(** [find_by_filename] with [validate_url=False] sends no request and
    still stamps [last_verified] of the row it returns. *)
Lemma find_by_filename_unvalidated_stamps (env : Env) (name : string)
    (w : World) (r : Row) :
  Sql.select_latest_valid (Sql.filename_is name) (uploads w) = Some r ->
  fst (find_by_filename env name false w) = Returned (Some r) /\
  probe_log (snd (find_by_filename env name false w)) = probe_log w /\
  uploads (snd (find_by_filename env name false w)) =
    Sql.update_last_verified (id r) (datetime_now env (instant w))
      (current_timestamp env (S (instant w))) (uploads w).
Proof.
  intros Hsel. rewrite find_by_filename_run, Hsel. repeat split.
Qed.

(** C4 on the code.  The table holds one valid row, stored with its hash
    and stamped [last_verified = ...001]; every HEAD request is answered
    200.  A lookup by hash confirms the URL and returns the row, yet
    [last_verified] keeps its old stamp, while the lookup by file name
    refreshes it after the same confirmation.  With [validate_url=False]
    and a server answering 404, the lookup by file name sends no request
    and refreshes [last_verified] all the same. *)
Theorem last_verified_not_tied_to_confirmation :
  let w := Examples.hashed_photo in
  let by_hash :=
    find_by_hash Examples.env_live "9f86d081884c7d65" true w in
  let by_name := find_by_filename Examples.env_live "photo.png" true w in
  let unchecked := find_by_filename Examples.env_dead "photo.png" false w in
  map last_verified (uploads w) = [Some 1700000000000001] /\
  (exists r, fst by_hash = Returned (Some r) /\ id r = 1) /\
  probe_log (snd by_hash) = [mkProbe 1 "https://x/1" true] /\
  map last_verified (uploads (snd by_hash)) = [Some 1700000000000001] /\
  probe_log (snd by_name) = [mkProbe 1 "https://x/1" true] /\
  map last_verified (uploads (snd by_name)) = [Some 1700000000000004] /\
  probe_log (snd unchecked) = [] /\
  map last_verified (uploads (snd unchecked)) = [Some 1700000000000003].
Proof.
  split; [reflexivity|]. split; [eexists; split; reflexivity|].
  repeat split.
Qed.

(** * Further properties of the record store *)

(** ** Insertion *)

Section Insertion.

Variable env : Env.

(** What the block computes, case by case. *)
Lemma size_and_hash_cases (path : option string) (w : World) :
  exists size hash,
    size_and_hash env path w = (Returned (size, hash), w) /\
    forall new, file_size new = size -> file_hash new = hash ->
                stored_size_hash env (fs w) path new.
Proof.
  unfold size_and_hash, stored_size_hash.
  destruct path as [p|]; [|exists None, None; split; [reflexivity|auto]].
  destruct (truthy p).
  2:{ exists None, None. split; [reflexivity|].
      destruct (fs w p); auto. }
  unfold bind at 1, os_path_exists.
  destruct (fs w p) as [f|] eqn:Ef;
    [|exists None, None; split; [reflexivity|auto]].
  unfold try_except at 1, bind at 1, os_path_getsize. rewrite Ef.
  destruct (st_size f) as [n|];
    [|exists None, None; split; [reflexivity|auto]].
  unfold try_except at 1, bind at 1, calculate_file_hash, try_except,
    bind at 1, read_bytes.
  rewrite Ef. destruct (content f) as [b|].
  - exists (Some n), (Some (sha256_hexdigest env b)).
    split; [reflexivity|auto].
  - exists (Some n), None. split; [reflexivity|auto].
Qed.

(** The whole of [insert_upload], by the outcome of the INSERT. *)
Lemma insert_upload_run (name u : string) (path meta : option string)
    (w : World) :
  exists size hash,
    size_and_hash env path w = (Returned (size, hash), w) /\
    insert_upload env name u path meta w =
    match insert_fault env (S (S (instant w))) with
    | Some e =>
        (Raised e,
         mkWorld (uploads w) (sqlite_sequence w) (fs w)
                 (S (S (S (instant w)))) (probe_log w) (stdout w))
    | None =>
        (Returned (Sql.next_rowid (sqlite_sequence w) (uploads w)),
         mkWorld
           (uploads w ++
            [mkRow (Sql.next_rowid (sqlite_sequence w) (uploads w)) name u
               path size hash (datetime_now env (instant w))
               (Some (datetime_now env (S (instant w)))) 1 meta
               (current_timestamp env (S (S (instant w))))
               (current_timestamp env (S (S (instant w))))])
           (Sql.next_rowid (sqlite_sequence w) (uploads w)) (fs w)
           (S (S (S (instant w)))) (probe_log w) (stdout w))
    end.
Proof.
  destruct (size_and_hash_cases path w) as (size & hash & Hs & _).
  exists size, hash. split; [exact Hs|].
  unfold insert_upload, bind at 1. rewrite Hs.
  unfold bind, datetime_now_isoformat, execute_insert, bind, tick, ret,
    get_world, set_uploads, set_sqlite_sequence, raise. simpl.
  destruct (insert_fault env (S (S (instant w)))); reflexivity.
Qed.

End Insertion.

(** X1.  An [insert_upload] that returns has appended exactly one row to
    the table, leaving every earlier row as it was.  The id it returns is
    the id of that row, greater than every id in the table before and
    greater than the AUTOINCREMENT mark, which it becomes.  The row
    carries the file name, URL, path and metadata given, is valid, has a
    [last_verified] stamp, and [created_at = updated_at]. *)
Theorem insert_upload_appends_fresh_row (env : Env) (name u : string)
    (path meta : option string) (w w1 : World) (rid : Z) :
  insert_upload env name u path meta w = (Returned rid, w1) ->
  (forall r, In r (uploads w) -> id r < rid) /\
  sqlite_sequence w < rid /\ sqlite_sequence w1 = rid /\
  exists new,
    uploads w1 = (uploads w ++ [new])%list /\
    id new = rid /\ filename new = name /\ url new = u /\
    file_path new = path /\ metadata new = meta /\ is_valid new = 1 /\
    last_verified new <> None /\ created_at new = updated_at new.
Proof.
  intros Hins.
  destruct (insert_upload_run env name u path meta w)
    as (size & hash & _ & Hrun).
  rewrite Hrun in Hins.
  destruct (insert_fault env (S (S (instant w)))); [discriminate|].
  injection Hins as <- <-. cbn [uploads sqlite_sequence].
  split; [intros r Hin; now apply next_rowid_fresh|].
  split; [unfold Sql.next_rowid; lia|]. split; [reflexivity|].
  eexists. split; [reflexivity|]. cbn. repeat split. discriminate.
Qed.

Lemma insert_upload_appends_fresh_row_witness :
  exists new,
    uploads (snd (insert_upload Examples.env_live "copy.png" "https://x/2"
                    None None Examples.one_photo)) =
      (uploads Examples.one_photo ++ [new])%list /\
    id new = 2 /\ is_valid new = 1.
Proof.
  destruct (insert_upload_appends_fresh_row Examples.env_live "copy.png"
              "https://x/2" None None Examples.one_photo
              (snd (insert_upload Examples.env_live "copy.png" "https://x/2"
                      None None Examples.one_photo)) 2 eq_refl)
    as (_ & _ & _ & new & Htab & Hid & _ & _ & _ & _ & Hv & _).
  exists new. auto.
Defined.


(** X3.  The size and hash columns of the row an [insert_upload] stores
    follow the file at the given path: both NULL without a path, with an
    empty path, for a missing file and when the stat fails; the size alone
    when the file cannot be read; the size and the SHA-256 digest of the
    bytes when it can. *)
Theorem insert_upload_stores_size_and_hash (env : Env) (name u : string)
    (path meta : option string) (w w1 : World) (rid : Z) :
  insert_upload env name u path meta w = (Returned rid, w1) ->
  exists new,
    uploads w1 = (uploads w ++ [new])%list /\
    stored_size_hash env (fs w) path new.
Proof.
  intros Hins.
  destruct (size_and_hash_cases env path w) as (size & hash & Hs & Hstored).
  destruct (insert_upload_run env name u path meta w)
    as (size' & hash' & Hs' & Hrun).
  rewrite Hs in Hs'. injection Hs' as <- <-.
  rewrite Hrun in Hins.
  destruct (insert_fault env (S (S (instant w)))); [discriminate|].
  injection Hins as <- <-. cbn [uploads].
  eexists. split; [reflexivity|]. now apply Hstored.
Qed.

Lemma insert_upload_stores_size_and_hash_witness :
  exists new,
    uploads (snd (insert_upload Examples.env_live "locked.png" "https://x/3"
                    (Some "/tmp/locked.png") None
                    (fresh_world Cases.disk))) = [new] /\
    file_size new = Some 7 /\ file_hash new = None.
Proof.
  destruct (insert_upload_stores_size_and_hash Examples.env_live "locked.png"
              "https://x/3" (Some "/tmp/locked.png") None
              (fresh_world Cases.disk)
              (snd (insert_upload Examples.env_live "locked.png"
                      "https://x/3" (Some "/tmp/locked.png") None
                      (fresh_world Cases.disk))) 1 eq_refl)
    as (new & Htab & Hstored).
  exists new. split; [exact Htab|exact Hstored].
Defined.

(** ** Invalidation and the statistics *)

Section Invalidation.

Variable env : Env.

Lemma update_invalidate_absent (rid ts : Z) (t : list Row) :
  (forall r, In r t -> id r <> rid) -> Sql.update_invalidate rid ts t = t.
Proof.
  intros Habs. unfold Sql.update_invalidate.
  rewrite <- (map_id t) at 2. apply map_ext_in. intros r Hin.
  destruct (Z.eqb_spec (id r) rid) as [E|_]; [|reflexivity].
  now destruct (Habs r Hin).
Qed.

Lemma update_invalidate_nth (rid ts : Z) (t : list Row) (i : nat) :
  nth_error (Sql.update_invalidate rid ts t) i =
  option_map (fun r => if id r =? rid then Sql.set_invalid ts r else r)
             (nth_error t i).
Proof. unfold Sql.update_invalidate. apply nth_error_map. Qed.

(** The counts of valid and of invalid rows once the row [r], alone with
    its id, is invalidated. *)
Lemma counts_after_invalidate (ts : Z) (t : list Row) (r : Row) :
  primary_key t -> In r t ->
  List.length (filter Sql.valid t) =
    Nat.add
      (List.length (filter Sql.valid (Sql.update_invalidate (id r) ts t)))
      (if is_valid r =? 1 then 1%nat else 0%nat) /\
  List.length (filter (fun x => is_valid x =? 0)
                 (Sql.update_invalidate (id r) ts t)) =
    Nat.add
      (List.length (filter (fun x => is_valid x =? 0) t))
      (if is_valid r =? 0 then 0%nat else 1%nat).
Proof.
  unfold primary_key, Sql.valid. induction t as [|x t IH]; [intros _ []|].
  intros Hnd Hin. inversion Hnd as [|? ? Hnot Hrest]; subst.
  destruct Hin as [->|Hin].
  - assert (Habs : forall y, In y t -> id y <> id r).
    { intros y Hy E. apply Hnot. rewrite <- E. now apply in_map. }
    cbn [Sql.update_invalidate map]. rewrite Z.eqb_refl.
    change (map (fun r0 => if id r0 =? id r then Sql.set_invalid ts r0
                           else r0) t)
      with (Sql.update_invalidate (id r) ts t).
    rewrite (update_invalidate_absent _ _ _ Habs).
    cbn [filter Sql.set_invalid is_valid Z.eqb].
    destruct (Z.eqb_spec (is_valid r) 1); destruct (Z.eqb_spec (is_valid r) 0);
      cbn [List.length]; lia.
  - assert (Hne : id x <> id r).
    { intros E. apply Hnot. rewrite E. now apply in_map. }
    destruct (IH Hrest Hin) as [IHv IHz].
    cbn [Sql.update_invalidate map].
    destruct (Z.eqb_spec (id x) (id r)) as [E|_]; [contradiction|].
    change (map (fun r0 => if id r0 =? id r then Sql.set_invalid ts r0
                           else r0) t)
      with (Sql.update_invalidate (id r) ts t).
    cbn [filter].
    destruct (is_valid x =? 1); destruct (is_valid x =? 0);
      cbn [List.length]; lia.
Qed.

End Invalidation.

(** X4.  [invalidate_record] returns and touches nothing but the rows
    with the given id: the table keeps its length, a row with another id
    is left as it is, and a row with that id keeps every column except
    [is_valid], which becomes 0, and [updated_at].  On an id no row
    carries the table is unchanged, and a second invalidation of the same
    id changes no [is_valid] flag. *)
Theorem invalidate_record_touches_only_its_id (env : Env) (rid : Z)
    (w : World) :
  let w1 := snd (invalidate_record env rid w) in
  fst (invalidate_record env rid w) = Returned tt /\
  List.length (uploads w1) = List.length (uploads w) /\
  (forall i r, nth_error (uploads w) i = Some r ->
     exists r', nth_error (uploads w1) i = Some r' /\
       (id r <> rid -> r' = r) /\
       (id r = rid ->
        is_valid r' = 0 /\ id r' = id r /\ filename r' = filename r /\
        url r' = url r /\ file_path r' = file_path r /\
        file_size r' = file_size r /\ file_hash r' = file_hash r /\
        upload_date r' = upload_date r /\
        last_verified r' = last_verified r /\ metadata r' = metadata r /\
        created_at r' = created_at r)) /\
  ((forall r, In r (uploads w) -> id r <> rid) -> uploads w1 = uploads w) /\
  map is_valid (uploads (snd (invalidate_record env rid w1))) =
    map is_valid (uploads w1).
Proof.
  intros w1. unfold w1. rewrite !invalidate_record_run. cbn [fst snd uploads].
  split; [reflexivity|].
  split; [unfold Sql.update_invalidate; apply length_map|].
  split; [|split].
  - intros i r Hnth. rewrite update_invalidate_nth, Hnth. cbn [option_map].
    eexists. split; [reflexivity|].
    destruct (Z.eqb_spec (id r) rid) as [E|E].
    + split; [intros H; contradiction|]. intros _. cbn. repeat split.
    + split; [reflexivity|intros H; contradiction].
  - apply update_invalidate_absent.
  - unfold Sql.update_invalidate. rewrite !map_map. apply map_ext.
    intros r. destruct (id r =? rid) eqn:E; cbn [id Sql.set_invalid].
    + rewrite E. reflexivity.
    + rewrite E. reflexivity.
Qed.

(** X5.  Under the primary key, invalidating a valid row moves one unit
    from [valid_records] to [invalid_records] in [get_stats] and leaves
    [total_records] as it was. *)
Theorem stats_after_invalidate (env : Env) (w : World) (r : Row) :
  primary_key (uploads w) -> In r (uploads w) -> is_valid r = 1 ->
  exists s s1,
    fst (get_stats w) = Returned s /\
    fst (get_stats (snd (invalidate_record env (id r) w))) = Returned s1 /\
    total_records s1 = total_records s /\
    valid_records s1 = valid_records s - 1 /\
    invalid_records s1 = invalid_records s + 1.
Proof.
  intros Hkey Hin Hv. rewrite invalidate_record_run.
  eexists. eexists. split; [reflexivity|]. split; [reflexivity|].
  cbn [total_records valid_records invalid_records uploads snd].
  destruct (counts_after_invalidate
              (current_timestamp env (instant w)) _ r Hkey Hin) as [Hc Hz].
  rewrite Hv in Hc, Hz. cbn [Z.eqb Pos.eqb] in Hc, Hz.
  unfold Sql.count. rewrite Hz, Hc.
  split; [|split].
  - unfold Sql.update_invalidate.
    assert (Hall : forall l : list Row, filter (fun _ => true) l = l).
    { induction l as [|x l IH]; [reflexivity|]. simpl. now rewrite IH. }
    rewrite !Hall, length_map. reflexivity.
  - lia.
  - lia.
Qed.

Lemma stats_after_invalidate_witness :
  exists s s1,
    fst (get_stats Examples.one_photo) = Returned s /\
    fst (get_stats (snd (invalidate_record Examples.env_live 1
                           Examples.one_photo))) = Returned s1 /\
    total_records s1 = total_records s /\
    valid_records s1 = valid_records s - 1 /\
    invalid_records s1 = invalid_records s + 1.
Proof.
  apply (stats_after_invalidate Examples.env_live Examples.one_photo
           (Examples.row 1 "photo.png" "https://x/1" 1 1700000000)).
  - vm_compute. repeat constructor. intros [].
  - now left.
  - reflexivity.
Defined.

Section Statistics.

Lemma total_size_is_fold (p : Row -> bool) (t : list Row) :
  match Sql.sum_file_size p t with
  | Some n => n
  | None => 0
  end =
  fold_right (fun r s => match file_size r with
                         | Some n => n + s
                         | None => s
                         end) 0
    (filter (fun r => p r && match file_size r with
                             | Some _ => true
                             | None => false
                             end) t).
Proof.
  unfold Sql.sum_file_size. destruct (filter _ t); reflexivity.
Qed.

(** The bytes a row adds to [total_size_bytes]. *)
Lemma total_size_app (t : list Row) (new : Row) :
  match Sql.sum_file_size Sql.valid (t ++ [new]) with
  | Some n => n
  | None => 0
  end =
  match Sql.sum_file_size Sql.valid t with
  | Some n => n
  | None => 0
  end +
  (if Sql.valid new then match file_size new with
                         | Some n => n
                         | None => 0
                         end
   else 0).
Proof.
  rewrite !total_size_is_fold, filter_app, fold_right_app.
  set (add := fun (r : Row) (s : Z) => match file_size r with
                                       | Some n => n + s
                                       | None => s
                                       end).
  assert (Hshift : forall (l : list Row) (z : Z),
             fold_right add z l = fold_right add 0 l + z).
  { induction l as [|x l IH]; intros z; simpl; [lia|].
    unfold add at 1 3. destruct (file_size x); rewrite IH; lia. }
  rewrite Hshift. f_equal. cbn [filter].
  destruct (Sql.valid new); cbn [andb]; [|reflexivity].
  destruct (file_size new) eqn:E; cbn [fold_right]; [|reflexivity].
  unfold add. rewrite E. lia.
Qed.

Lemma min_opt_bound (l : list Z) (x : Z) :
  In x l -> exists m, Sql.min_opt l = Some m /\ m <= x.
Proof.
  destruct l as [|y l]; [intros []|]. intros Hin. eexists.
  split; [reflexivity|]. revert y Hin.
  induction l as [|z l IH]; intros y Hin.
  - destruct Hin as [->|[]]. simpl. lia.
  - cbn [fold_right]. destruct Hin as [->|[->|Hin]].
    + pose proof (IH x (or_introl eq_refl)). lia.
    + lia.
    + pose proof (IH y (or_intror Hin)). lia.
Qed.

Lemma max_opt_bound (l : list Z) (x : Z) :
  In x l -> exists m, Sql.max_opt l = Some m /\ x <= m.
Proof.
  destruct l as [|y l]; [intros []|]. intros Hin. eexists.
  split; [reflexivity|]. revert y Hin.
  induction l as [|z l IH]; intros y Hin.
  - destruct Hin as [->|[]]. simpl. lia.
  - cbn [fold_right]. destruct Hin as [->|[->|Hin]].
    + pose proof (IH x (or_introl eq_refl)). lia.
    + lia.
    + pose proof (IH y (or_intror Hin)). lia.
Qed.

End Statistics.

(** X6.  After an [insert_upload] that returns, [get_stats] reports one
    more in [total_records] and in [valid_records], the same
    [invalid_records], and a [total_size_bytes] larger by the size stored
    with the new row (by nothing when no size was stored). *)
Theorem stats_after_insert (env : Env) (name u : string)
    (path meta : option string) (w w1 : World) (rid : Z) :
  insert_upload env name u path meta w = (Returned rid, w1) ->
  exists s s1 new,
    fst (get_stats w) = Returned s /\
    fst (get_stats w1) = Returned s1 /\
    uploads w1 = (uploads w ++ [new])%list /\
    total_records s1 = total_records s + 1 /\
    valid_records s1 = valid_records s + 1 /\
    invalid_records s1 = invalid_records s /\
    total_size_bytes s1 =
      total_size_bytes s + match file_size new with
                           | Some n => n
                           | None => 0
                           end.
Proof.
  intros Hins.
  destruct (insert_upload_run env name u path meta w)
    as (size & hash & _ & Hrun).
  rewrite Hrun in Hins.
  destruct (insert_fault env (S (S (instant w)))); [discriminate|].
  injection Hins as <- <-.
  eexists. eexists. eexists.
  split; [reflexivity|]. split; [reflexivity|]. split; [reflexivity|].
  cbn [total_records valid_records invalid_records total_size_bytes uploads].
  rewrite total_size_app. unfold Sql.count. rewrite !filter_app, !length_app.
  cbn. repeat split; lia.
Qed.

Lemma stats_after_insert_witness :
  exists s s1 new,
    fst (get_stats (fresh_world Cases.disk)) = Returned s /\
    fst (get_stats
           (snd (insert_upload Examples.env_live "photo.png" "https://x/1"
                   (Some "/tmp/photo.png") None (fresh_world Cases.disk)))) =
      Returned s1 /\
    uploads (snd (insert_upload Examples.env_live "photo.png" "https://x/1"
                    (Some "/tmp/photo.png") None (fresh_world Cases.disk))) =
      (uploads (fresh_world Cases.disk) ++ [new])%list /\
    total_records s1 = total_records s + 1 /\
    valid_records s1 = valid_records s + 1 /\
    invalid_records s1 = invalid_records s /\
    total_size_bytes s1 =
      total_size_bytes s + match file_size new with
                           | Some n => n
                           | None => 0
                           end.
Proof.
  apply (stats_after_insert Examples.env_live "photo.png" "https://x/1"
           (Some "/tmp/photo.png") None (fresh_world Cases.disk) _ 1).
  reflexivity.
Defined.

(** X7.  In [get_stats], [earliest_upload] and [latest_upload] bracket
    the [upload_date] of every valid row, and both are NULL exactly when
    the table has no valid row. *)
Theorem stats_dates_bracket_valid_rows (w : World) :
  exists s,
    fst (get_stats w) = Returned s /\
    (forall r, In r (uploads w) -> is_valid r = 1 ->
       exists lo hi,
         earliest_upload s = Some lo /\ latest_upload s = Some hi /\
         lo <= upload_date r <= hi) /\
    ((forall r, In r (uploads w) -> is_valid r <> 1) <->
     earliest_upload s = None /\ latest_upload s = None).
Proof.
  eexists. split; [reflexivity|].
  cbn [earliest_upload latest_upload].
  assert (Hin : forall r, In r (uploads w) -> is_valid r = 1 ->
                  In (upload_date r)
                     (map upload_date (filter Sql.valid (uploads w)))).
  { intros r Hr Hv. apply in_map, filter_In. split; [assumption|].
    unfold Sql.valid. now rewrite Hv. }
  split.
  - intros r Hr Hv.
    destruct (min_opt_bound _ _ (Hin r Hr Hv)) as (lo & Hlo & Hle).
    destruct (max_opt_bound _ _ (Hin r Hr Hv)) as (hi & Hhi & Hge).
    exists lo, hi. rewrite Hlo, Hhi. repeat split; lia.
  - split.
    + intros Hnone.
      destruct (filter Sql.valid (uploads w)) as [|x l] eqn:E;
        [split; reflexivity|].
      assert (Hx : In x (filter Sql.valid (uploads w)))
        by (rewrite E; now left).
      apply filter_In in Hx. destruct Hx as [Hx Hv].
      unfold Sql.valid in Hv. apply Z.eqb_eq in Hv.
      now destruct (Hnone x Hx).
    + intros [Hlo _] r Hr Hv.
      destruct (min_opt_bound _ _ (Hin r Hr Hv)) as (lo & Hlo' & _).
      rewrite Hlo in Hlo'. discriminate.
Qed.

(** ** Paths and patterns *)

Section Paths.

Lemma has_slash_app (a b : string) :
  has_slash (a ++ b) = has_slash a || has_slash b.
Proof.
  induction a as [|c a IH]; [reflexivity|]. simpl. rewrite IH.
  now rewrite orb_assoc.
Qed.

Lemma basename_join (dir name : string) :
  has_slash name = false -> basename (dir ++ "/" ++ name) = name.
Proof.
  intros Hname. induction dir as [|c dir IH].
  - simpl. now rewrite Hname.
  - cbn [append basename]. rewrite has_slash_app. cbn [has_slash].
    rewrite Ascii.eqb_refl, orb_true_r. exact IH.
Qed.

Lemma basename_no_slash (p : string) : has_slash (basename p) = false.
Proof.
  induction p as [|c p IH]; [reflexivity|]. cbn [basename].
  destruct (has_slash p) eqn:Hp; [exact IH|].
  destruct (Ascii.eqb c "/") eqn:Hc; [exact Hp|].
  cbn [has_slash]. now rewrite Hc, Hp.
Qed.

Lemma basename_plain (p : string) : has_slash p = false -> basename p = p.
Proof.
  destruct p as [|c p]; [reflexivity|]. cbn [has_slash basename].
  intros H. apply orb_false_iff in H. destruct H as [Hc Hp].
  now rewrite Hp, Hc.
Qed.

(** One step of [LIKE] on a pattern that starts with [%]. *)
Lemma like_percent_step (rest text : string) :
  like (String "%" rest) text =
  like rest text ||
  match text with
  | EmptyString => false
  | String _ text' => like (String "%" rest) text'
  end.
Proof. destruct text; reflexivity. Qed.

Lemma like_percent_any (text : string) : like "%" text = true.
Proof.
  induction text as [|c text IH]; [reflexivity|].
  rewrite like_percent_step, IH. apply orb_true_r.
Qed.

(** A leading [%] lets the pattern start anywhere. *)
Lemma like_percent_skip (rest before text : string) :
  like rest text = true -> like (String "%" rest) (before ++ text) = true.
Proof.
  intros H. induction before as [|c before IH].
  - cbn [append]. rewrite like_percent_step, H. reflexivity.
  - cbn [append]. rewrite like_percent_step, IH. apply orb_true_r.
Qed.

(** Every text matches itself followed by anything, whatever characters
    it is made of. *)
Lemma like_literal_prefix (q after : string) :
  like (q ++ "%") (q ++ after) = true.
Proof.
  induction q as [|c q IH].
  - apply like_percent_any.
  - cbn [append]. destruct (Ascii.eqb c "%") eqn:Hp.
    + apply Ascii.eqb_eq in Hp. subst c.
      rewrite like_percent_step.
      rewrite (like_percent_step (q ++ "%") (q ++ after)), IH.
      cbn [orb]. apply orb_true_r.
    + cbn [like]. rewrite Hp.
      destruct (Ascii.eqb c "_"); [exact IH|].
      rewrite Ascii.eqb_refl. exact IH.
Qed.

Lemma like_contains (q before after : string) :
  like ("%" ++ q ++ "%") (before ++ q ++ after) = true.
Proof. apply like_percent_skip, like_literal_prefix. Qed.

End Paths.

(** X8.  [os.path.basename] as the resolver uses it: the basename of a
    directory joined to a name without a slash is that name, a path
    without a slash is its own basename, and a basename never contains a
    slash. *)
Theorem basename_is_the_final_component :
  (forall dir name, has_slash name = false ->
     basename (dir ++ "/" ++ name) = name) /\
  (forall p, has_slash p = false -> basename p = p) /\
  (forall p, has_slash (basename p) = false).
Proof.
  split; [exact basename_join|].
  split; [exact basename_plain|exact basename_no_slash].
Qed.

(** ** The search *)

Section Search.

Lemma insert_desc_perm (r : Row) (l : list Row) :
  Permutation (Sql.insert_desc r l) (r :: l).
Proof.
  induction l as [|x l IH]; [apply Permutation_refl|]. cbn [Sql.insert_desc].
  destruct (created_at x <? created_at r); [apply Permutation_refl|].
  eapply Permutation_trans; [apply perm_skip, IH|apply perm_swap].
Qed.


Lemma order_by_perm (rows : list Row) :
  Permutation (Sql.order_by_created_at_desc rows) rows.
Proof.
  unfold Sql.order_by_created_at_desc.
  assert (H : forall acc,
             Permutation (fold_left (fun sorted r => Sql.insert_desc r sorted)
                            rows acc) (rows ++ acc)).
  { induction rows as [|r rows IH]; intros acc; [apply Permutation_refl|].
    cbn [fold_left]. eapply Permutation_trans; [apply IH|].
    eapply Permutation_trans;
      [apply Permutation_app_head, insert_desc_perm|].
    apply Permutation_sym, Permutation_middle. }
  specialize (H []). now rewrite app_nil_r in H.
Qed.



(** The rows the WHERE clause of [search_uploads] keeps. *)
Lemma search_uploads_run (query : string) (limit : Z) (w : World) :
  search_uploads query limit w =
  (Returned
     (Sql.limit limit
        (Sql.order_by_created_at_desc
           (filter
              (fun r =>
                 if truthy query then
                   (like ("%" ++ query ++ "%") (filename r)
                    || like ("%" ++ query ++ "%") (url r)
                    || like_opt ("%" ++ query ++ "%") (file_path r))
                   && Sql.valid r
                 else Sql.valid r)
              (uploads w)))),
   w).
Proof. reflexivity. Qed.

Lemma length_filter_le {A : Type} (p q : A -> bool) (l : list A) :
  (forall x, p x = true -> q x = true) ->
  (List.length (filter p l) <= List.length (filter q l))%nat.
Proof.
  intros Hpq. induction l as [|x l IH]; [apply le_n|]. cbn [filter].
  destruct (p x) eqn:Hp.
  - rewrite (Hpq x Hp). cbn [List.length]. lia.
  - destruct (q x); cbn [List.length]; lia.
Qed.

(** A bound that is absent, or at least the number of valid rows, cuts
    nothing off. *)
Lemma limit_keeps_all (limit : Z) (w : World) (p : Row -> bool)
    (l : list Row) :
  limit < 0 \/ Sql.count Sql.valid (uploads w) <= limit ->
  (forall x, p x = true -> Sql.valid x = true) ->
  Permutation l (filter p (uploads w)) ->
  Sql.limit limit l = l.
Proof.
  intros Hlim Hp Hperm. unfold Sql.limit.
  destruct (Z.ltb_spec limit 0) as [_|Hge]; [reflexivity|].
  destruct Hlim as [Hneg|Hle]; [lia|].
  apply firstn_all2. rewrite (Permutation_length Hperm).
  pose proof (length_filter_le p Sql.valid (uploads w) Hp).
  unfold Sql.count in Hle. lia.
Qed.

End Search.


(** X10.  [search_uploads] misses no match: when the bound is negative or
    at least the number of valid rows, every valid row whose file name,
    URL or path contains the query as a piece of text is among the rows
    returned, whatever characters the query is made of. *)
Theorem search_uploads_finds_literal_matches (query : string) (limit : Z)
    (w : World) (r : Row) (before after : string) :
  limit < 0 \/ Sql.count Sql.valid (uploads w) <= limit ->
  In r (uploads w) -> is_valid r = 1 ->
  filename r = before ++ query ++ after \/
  url r = before ++ query ++ after \/
  file_path r = Some (before ++ query ++ after) ->
  exists rows,
    fst (search_uploads query limit w) = Returned rows /\ In r rows.
Proof.
  intros Hlim Hin Hv Hhit. rewrite search_uploads_run. cbn [fst].
  eexists. split; [reflexivity|].
  erewrite limit_keeps_all;
    [|exact Hlim| |apply order_by_perm].
  - apply (Permutation_in _ (Permutation_sym (order_by_perm _))).
    apply filter_In. split; [assumption|].
    assert (Hvalid : Sql.valid r = true)
      by (unfold Sql.valid; now rewrite Hv).
    rewrite Hvalid. destruct (truthy query); [|reflexivity].
    rewrite andb_true_r.
    destruct Hhit as [E|[E|E]]; rewrite E; cbn [like_opt];
      rewrite like_contains; cbn [orb]; rewrite ?orb_true_r; reflexivity.
  - intros x Hx. destruct (truthy query); [|exact Hx].
    apply andb_true_iff in Hx. tauto.
Qed.

Lemma search_uploads_finds_literal_matches_witness :
  exists rows,
    fst (search_uploads "hot" 100 Examples.one_photo) = Returned rows /\
    In (Examples.row 1 "photo.png" "https://x/1" 1 1700000000) rows.
Proof.
  apply (search_uploads_finds_literal_matches "hot" 100 Examples.one_photo
           _ "p" "o.png").
  - right. vm_compute. discriminate.
  - now left.
  - reflexivity.
  - left. reflexivity.
Defined.

(** X11.  With an empty query and a bound that is negative or at least
    the number of valid rows, [search_uploads] returns every valid row of
    the table exactly once. *)
Theorem search_uploads_empty_query_lists_valid (limit : Z) (w : World) :
  limit < 0 \/ Sql.count Sql.valid (uploads w) <= limit ->
  exists rows,
    fst (search_uploads "" limit w) = Returned rows /\
    Permutation rows (filter Sql.valid (uploads w)).
Proof.
  intros Hlim. rewrite search_uploads_run. cbn [fst truthy String.eqb negb].
  eexists. split; [reflexivity|].
  erewrite limit_keeps_all; [apply order_by_perm|exact Hlim| |apply order_by_perm].
  auto.
Qed.

Lemma search_uploads_empty_query_lists_valid_witness :
  exists rows,
    fst (search_uploads "" (-1) Examples.same_bytes_twice) = Returned rows /\
    Permutation rows (filter Sql.valid (uploads Examples.same_bytes_twice)).
Proof.
  apply (search_uploads_empty_query_lists_valid (-1)
           Examples.same_bytes_twice).
  left. reflexivity.
Defined.

(** ** The import of the legacy document *)

Section Migration.

Variable env : Env.

Lemma has_valid_verify (name : string) (rid now ts : Z) (t : list Row) :
  has_valid name t -> has_valid name (Sql.update_last_verified rid now ts t).
Proof.
  intros (r & Hin & Hn & Hv).
  exists (if id r =? rid then Sql.set_verified now ts r else r).
  split.
  { unfold Sql.update_last_verified. apply in_map_iff. exists r. auto. }
  destruct (id r =? rid); auto.
Qed.

Lemma has_valid_app (name : string) (t extra : list Row) :
  has_valid name t -> has_valid name (t ++ extra).
Proof.
  intros (r & Hin & Hn & Hv). exists r. split; [|auto].
  apply in_or_app. now left.
Qed.

Lemma has_valid_selected (name : string) (t : list Row) :
  has_valid name t <->
  exists r, Sql.select_latest_valid (Sql.filename_is name) t = Some r.
Proof.
  split.
  - intros (r & Hin & Hn & Hv).
    destruct (Sql.select_latest_valid (Sql.filename_is name) t) as [x|] eqn:E;
      [eauto|].
    apply select_latest_valid_none in E.
    destruct (E r Hin); [now apply filename_is_true|assumption].
  - intros (r & E). apply select_latest_valid_some in E.
    destruct E as (Hin & Hk & Hv & _). exists r.
    split; [assumption|]. split; [now apply filename_is_true|assumption].
Qed.

(** One item of the document whose name has a valid row: the row is
    stamped, nothing is inserted. *)
Lemma migrate_loop_present_step (name u : string)
    (rest : list (string * string)) (count : Z) (w : World) (r : Row) :
  Sql.select_latest_valid (Sql.filename_is name) (uploads w) = Some r ->
  migrate_loop env ((name, u) :: rest) count w =
  migrate_loop env rest count (verified env (id r) w).
Proof.
  intros E. cbn [migrate_loop]. unfold bind at 1.
  rewrite find_by_filename_run, E. reflexivity.
Qed.

(** One item whose name has no valid row, when the INSERT succeeds. *)
Lemma migrate_loop_absent_step (name u : string)
    (rest : list (string * string)) (count : Z) (w : World) :
  Sql.select_latest_valid (Sql.filename_is name) (uploads w) = None ->
  insert_fault env (S (S (instant w))) = None ->
  exists new w1,
    migrate_loop env ((name, u) :: rest) count w =
      migrate_loop env rest (count + 1) w1 /\
    uploads w1 = (uploads w ++ [new])%list /\
    filename new = name /\ url new = u /\ is_valid new = 1 /\
    fs w1 = fs w /\ probe_log w1 = probe_log w.
Proof.
  intros E Hok. cbn [migrate_loop]. unfold bind at 1.
  rewrite find_by_filename_run, E. unfold bind at 1.
  destruct (insert_upload_run env name u None None w)
    as (size & hash & _ & Hrun).
  rewrite Hrun, Hok. eexists. eexists. split; [reflexivity|].
  cbn. repeat split.
Qed.

(** The loop over the items when no INSERT fails. *)
Lemma migrate_loop_ok (items : list (string * string)) :
  (forall n, insert_fault env n = None) ->
  forall (count : Z) (w : World),
    exists (k : nat) (w' : World),
      migrate_loop env items count w = (Returned (count + Z.of_nat k), w') /\
      (k <= List.length items)%nat /\
      List.length (uploads w') = (List.length (uploads w) + k)%nat /\
      fs w' = fs w /\ probe_log w' = probe_log w /\
      (forall name, has_valid name (uploads w) ->
                    has_valid name (uploads w')) /\
      (forall name u, In (name, u) items -> has_valid name (uploads w')).
Proof.
  intros Hok. induction items as [|[name u] rest IH]; intros count w.
  - exists 0%nat, w. cbn [migrate_loop ret Z.of_nat].
    rewrite Z.add_0_r. repeat split; auto. intros name u [].
  - destruct (Sql.select_latest_valid (Sql.filename_is name) (uploads w))
      as [r|] eqn:E.
    + rewrite (migrate_loop_present_step _ _ _ _ _ _ E).
      destruct (IH count (verified env (id r) w))
        as (k & w' & Hrun & Hk & Hlen & Hfs & Hlog & Hkeep & Hall).
      exists k, w'. cbn [uploads fs probe_log verified] in *.
      unfold Sql.update_last_verified in Hlen. rewrite length_map in Hlen.
      split; [exact Hrun|]. split; [cbn [List.length]; lia|].
      split; [exact Hlen|]. split; [exact Hfs|]. split; [exact Hlog|].
      split.
      * intros n Hn. apply Hkeep. now apply has_valid_verify.
      * intros n x [[= <- <-]|Hin]; [|eauto].
        apply Hkeep, has_valid_verify. apply has_valid_selected. eauto.
    + destruct (migrate_loop_absent_step name u rest count w E (Hok _))
        as (new & w1 & Hstep & Htab & Hname & _ & Hv & Hfs1 & Hlog1).
      rewrite Hstep.
      destruct (IH (count + 1) w1)
        as (k & w' & Hrun & Hk & Hlen & Hfs & Hlog & Hkeep & Hall).
      exists (S k), w'.
      split; [rewrite Hrun; f_equal; f_equal; lia|].
      split; [cbn [List.length]; lia|].
      split; [rewrite Hlen, Htab, length_app; cbn [List.length]; lia|].
      split; [congruence|]. split; [congruence|]. split.
      * intros n Hn. apply Hkeep. rewrite Htab. now apply has_valid_app.
      * intros n x [[= <- <-]|Hin]; [|eauto].
        apply Hkeep. exists new. rewrite Htab.
        split; [apply in_or_app; right; now left|auto].
Qed.

(** The loop when every name of the document has a valid row already. *)
Lemma migrate_loop_present (items : list (string * string)) :
  forall (count : Z) (w : World),
    (forall name u, In (name, u) items -> has_valid name (uploads w)) ->
    exists w',
      migrate_loop env items count w = (Returned count, w') /\
      List.length (uploads w') = List.length (uploads w).
Proof.
  induction items as [|[name u] rest IH]; intros count w Hall.
  - exists w. split; reflexivity.
  - destruct (proj1 (has_valid_selected name (uploads w))
                (Hall name u (or_introl eq_refl))) as (r & E).
    rewrite (migrate_loop_present_step _ _ _ _ _ _ E).
    destruct (IH count (verified env (id r) w)) as (w' & Hrun & Hlen).
    { intros n x Hin. cbn [uploads verified]. apply has_valid_verify.
      apply (Hall n x). now right. }
    exists w'. split; [exact Hrun|]. rewrite Hlen. cbn [uploads verified].
    unfold Sql.update_last_verified. apply length_map.
Qed.

(** [migrate_from_json] on a document that can be read and parsed. *)
Lemma migrate_from_json_parsed (path : string) (w : World) (f : File)
    (b : list byte) (data : list (string * string)) :
  fs w path = Some f -> content f = Some b ->
  json_load env b = Returned data ->
  migrate_from_json env path w =
  match migrate_loop env data 0 w with
  | (Returned n, w') => (Returned n, w')
  | (Raised e, w') =>
      if is_Exception e
      then (Returned 0, snd (print (MigrationError e) w'))
      else (Raised e, w')
  end.
Proof.
  intros Hfs Hc Hjson.
  unfold migrate_from_json, bind at 1, os_path_exists. rewrite Hfs.
  cbn [negb]. unfold try_except, bind at 1, read_bytes. rewrite Hfs, Hc.
  unfold bind at 1. rewrite Hjson. unfold ret at 1.
  destruct (migrate_loop env data 0 w) as [[n|e] w']; [reflexivity|].
  destruct (is_Exception e); reflexivity.
Qed.

Lemma migrate_from_json_missing (path : string) (w : World) :
  fs w path = None -> migrate_from_json env path w = (Returned 0, w).
Proof.
  intros Hfs. unfold migrate_from_json, bind at 1, os_path_exists.
  rewrite Hfs. reflexivity.
Qed.

Lemma migrate_from_json_unreadable (path : string) (w : World) (f : File) :
  fs w path = Some f -> content f = None ->
  migrate_from_json env path w =
  (Returned 0, snd (print (MigrationError OSError) w)).
Proof.
  intros Hfs Hc. unfold migrate_from_json, bind at 1, os_path_exists.
  rewrite Hfs. cbn [negb]. unfold try_except, bind at 1, read_bytes.
  rewrite Hfs, Hc. reflexivity.
Qed.

Lemma migrate_from_json_unparsed (path : string) (w : World) (f : File)
    (b : list byte) (e : exn) :
  fs w path = Some f -> content f = Some b ->
  json_load env b = Raised e -> is_Exception e = true ->
  migrate_from_json env path w =
  (Returned 0, snd (print (MigrationError e) w)).
Proof.
  intros Hfs Hc Hjson He. unfold migrate_from_json, bind at 1, os_path_exists.
  rewrite Hfs. cbn [negb]. unfold try_except, bind at 1, read_bytes.
  rewrite Hfs, Hc. unfold bind at 1. rewrite Hjson. unfold raise.
  rewrite He. reflexivity.
Qed.

End Migration.

(** X12.  [migrate_from_json] returns 0 and leaves the table as it was
    when the document is missing, when it cannot be read, and when the
    parser raises an [Exception]; no URL is probed. *)
Theorem migrate_from_json_without_document (env : Env) (path : string)
    (w : World) :
  fs w path = None \/
  (exists f, fs w path = Some f /\
     (content f = None \/
      exists b e, content f = Some b /\ json_load env b = Raised e /\
                  is_Exception e = true)) ->
  fst (migrate_from_json env path w) = Returned 0 /\
  uploads (snd (migrate_from_json env path w)) = uploads w /\
  probe_log (snd (migrate_from_json env path w)) = probe_log w.
Proof.
  intros [Hfs|(f & Hfs & [Hc|(b & e & Hc & Hjson & He)])].
  - rewrite (migrate_from_json_missing env path w Hfs). auto.
  - rewrite (migrate_from_json_unreadable env path w f Hfs Hc). auto.
  - rewrite (migrate_from_json_unparsed env path w f b e Hfs Hc Hjson He).
    auto.
Qed.

Lemma migrate_from_json_without_document_witness :
  fst (migrate_from_json Examples.env_live "legacy.json" Cases.photo_on_disk)
    = Returned 0 /\
  uploads (snd (migrate_from_json Examples.env_live "legacy.json"
                  Cases.photo_on_disk)) = uploads Cases.photo_on_disk /\
  probe_log (snd (migrate_from_json Examples.env_live "legacy.json"
                    Cases.photo_on_disk)) = probe_log Cases.photo_on_disk.
Proof.
  apply (migrate_from_json_without_document Examples.env_live "legacy.json"
           Cases.photo_on_disk).
  right. exists Examples.photo. split; [reflexivity|]. right.
  exists [x01; x02; x03], JSONDecodeError. repeat split.
Defined.

(** X13.  When the document is read and parsed and no INSERT fails,
    [migrate_from_json] returns the number of rows it added, at most one
    for each item; afterwards every file name of the document has a valid
    row, every file name that had one keeps one, and no URL was probed. *)
Theorem migrate_from_json_covers_document (env : Env) (path : string)
    (w : World) (f : File) (b : list byte)
    (data : list (string * string)) :
  fs w path = Some f -> content f = Some b ->
  json_load env b = Returned data ->
  (forall n, insert_fault env n = None) ->
  exists (k : nat) (w' : World),
    migrate_from_json env path w = (Returned (Z.of_nat k), w') /\
    (k <= List.length data)%nat /\
    List.length (uploads w') = (List.length (uploads w) + k)%nat /\
    (forall name u, In (name, u) data -> has_valid name (uploads w')) /\
    (forall name, has_valid name (uploads w) -> has_valid name (uploads w')) /\
    probe_log w' = probe_log w.
Proof.
  intros Hfs Hc Hjson Hok.
  rewrite (migrate_from_json_parsed env path w f b data Hfs Hc Hjson).
  destruct (migrate_loop_ok env data Hok 0 w)
    as (k & w' & Hrun & Hk & Hlen & _ & Hlog & Hkeep & Hall).
  rewrite Hrun. exists k, w'. repeat split; auto.
Qed.

Lemma migrate_from_json_covers_document_witness :
  exists (k : nat) (w' : World),
    migrate_from_json Cases.env_legacy "legacy.json" Cases.photo_on_disk =
      (Returned (Z.of_nat k), w') /\
    (k <= 2)%nat /\
    List.length (uploads w') = (1 + k)%nat /\
    (forall name u, In (name, u) Cases.legacy_items ->
                    has_valid name (uploads w')) /\
    (forall name, has_valid name (uploads Cases.photo_on_disk) ->
                  has_valid name (uploads w')) /\
    probe_log w' = [].
Proof.
  apply (migrate_from_json_covers_document Cases.env_legacy "legacy.json"
           Cases.photo_on_disk Examples.photo [x01; x02; x03]
           Cases.legacy_items); reflexivity.
Defined.

(** X14.  Importing the same document a second time adds nothing: after
    an import in which no INSERT failed, [migrate_from_json] on the same
    document returns 0 and the table keeps its length. *)
Theorem migrate_from_json_twice_adds_nothing (env : Env) (path : string)
    (w : World) (f : File) (b : list byte)
    (data : list (string * string)) :
  fs w path = Some f -> content f = Some b ->
  json_load env b = Returned data ->
  (forall n, insert_fault env n = None) ->
  exists w2,
    migrate_from_json env path (snd (migrate_from_json env path w)) =
      (Returned 0, w2) /\
    List.length (uploads w2) =
      List.length (uploads (snd (migrate_from_json env path w))).
Proof.
  intros Hfs Hc Hjson Hok.
  rewrite (migrate_from_json_parsed env path w f b data Hfs Hc Hjson).
  destruct (migrate_loop_ok env data Hok 0 w)
    as (k & w1 & Hrun & _ & _ & Hfs1 & _ & _ & Hall).
  rewrite Hrun. cbn [snd].
  rewrite (migrate_from_json_parsed env path w1 f b data);
    [|now rewrite Hfs1|assumption|assumption].
  destruct (migrate_loop_present env data 0 w1 Hall) as (w2 & Hrun2 & Hlen).
  rewrite Hrun2. eauto.
Qed.

Lemma migrate_from_json_twice_adds_nothing_witness :
  exists w2,
    migrate_from_json Cases.env_legacy "legacy.json"
      (snd (migrate_from_json Cases.env_legacy "legacy.json"
              Cases.photo_on_disk)) = (Returned 0, w2) /\
    List.length (uploads w2) =
      List.length
        (uploads (snd (migrate_from_json Cases.env_legacy "legacy.json"
                         Cases.photo_on_disk))).
Proof.
  apply (migrate_from_json_twice_adds_nothing Cases.env_legacy "legacy.json"
           Cases.photo_on_disk Examples.photo [x01; x02; x03]
           Cases.legacy_items); reflexivity.
Defined.

(** ** What every sequence of operations keeps *)

Section Keeping.

Lemma evolves_length (t t' : list Row) :
  evolves t t' -> (List.length t <= List.length t')%nat.
Proof.
  intros (kept & added & -> & H). rewrite length_app.
  rewrite (Forall2_length H). lia.
Qed.

Lemma max_rowid_nonneg (t : list Row) : 0 <= Sql.max_rowid t.
Proof. induction t as [|x t IH]; simpl; lia. Qed.

Lemma ids_after_invalidate (rid ts : Z) (t : list Row) :
  map id (Sql.update_invalidate rid ts t) = map id t.
Proof.
  unfold Sql.update_invalidate. rewrite map_map. apply map_ext.
  intros r. now destruct (id r =? rid).
Qed.

Lemma ids_after_verify (rid now ts : Z) (t : list Row) :
  map id (Sql.update_last_verified rid now ts t) = map id t.
Proof.
  unfold Sql.update_last_verified. rewrite map_map. apply map_ext.
  intros r. now destruct (id r =? rid).
Qed.

Lemma sorted_snoc (l : list Z) (x : Z) :
  StronglySorted Z.lt l -> (forall y, In y l -> y < x) ->
  StronglySorted Z.lt (l ++ [x]).
Proof.
  induction l as [|a l IH]; intros Hs Hlt.
  - repeat constructor.
  - inversion Hs as [|? ? Hl Ha]; subst. cbn [app]. constructor.
    + apply IH; [assumption|]. intros y Hy. apply Hlt. now right.
    + apply Forall_app. split; [assumption|].
      constructor; [|constructor]. apply Hlt. now left.
Qed.

Lemma ids_ascend_preserved (env : Env) (ops : list Op) (w : World) :
  ids_ascend (uploads w) -> ids_ascend (uploads (run_ops env ops w)).
Proof.
  apply (run_ops_stable env (fun t t' => ids_ascend t -> ids_ascend t')).
  - auto.
  - auto.
  - intros rid ts t [Hs Hpos]. split.
    + now rewrite ids_after_invalidate.
    + intros r Hin. unfold Sql.update_invalidate in Hin.
      apply in_map_iff in Hin. destruct Hin as (r0 & <- & Hin).
      specialize (Hpos r0 Hin). now destruct (id r0 =? rid).
  - intros rid now ts t [Hs Hpos]. split.
    + now rewrite ids_after_verify.
    + intros r Hin. unfold Sql.update_last_verified in Hin.
      apply in_map_iff in Hin. destruct Hin as (r0 & <- & Hin).
      specialize (Hpos r0 Hin). now destruct (id r0 =? rid).
  - intros t seq name u path size hash date ver meta ts [Hs Hpos]. split.
    + rewrite map_app. cbn [map id]. apply sorted_snoc; [assumption|].
      intros y Hy. apply in_map_iff in Hy. destruct Hy as (r & <- & Hin).
      now apply next_rowid_fresh.
    + intros r Hin. apply in_app_or in Hin.
      destruct Hin as [Hin|[<-|[]]]; [now apply Hpos|].
      cbn [id]. pose proof (max_rowid_nonneg t). unfold Sql.next_rowid. lia.
Qed.

Lemma valid_row_not_retired (rid : Z) (t : list Row) (x : Row) :
  retired rid t -> In x t -> is_valid x = 1 -> id x <> rid.
Proof.
  intros [_ Hinv] Hin Hv E. specialize (Hinv x Hin E). lia.
Qed.

Lemma retired_after_ops (env : Env) (rid : Z) (ops : list Op) (w : World) :
  retired rid (uploads w) -> retired rid (uploads (run_ops env ops w)).
Proof.
  apply (run_ops_stable env (fun t t' => retired rid t -> retired rid t')).
  - auto.
  - auto.
  - intros rid' ts t [(r & Hin & Hid) Hinv]. split.
    + exists (if id r =? rid' then Sql.set_invalid ts r else r). split.
      * unfold Sql.update_invalidate. apply in_map_iff. exists r. auto.
      * now destruct (id r =? rid').
    + now apply invalidated_kept_by_update.
  - intros rid' now ts t [(r & Hin & Hid) Hinv]. split.
    + exists (if id r =? rid' then Sql.set_verified now ts r else r). split.
      * unfold Sql.update_last_verified. apply in_map_iff. exists r. auto.
      * now destruct (id r =? rid').
    + now apply invalidated_kept_by_verify.
  - intros t seq name u path size hash date ver meta ts
           [(r & Hin & Hid) Hinv]. split.
    + exists r. split; [apply in_or_app; now left|assumption].
    + intros x Hx Hidx. apply in_app_or in Hx.
      destruct Hx as [Hx|[<-|[]]]; [now apply Hinv|].
      cbn [id] in Hidx. pose proof (next_rowid_fresh seq t r Hin). lia.
Qed.

Lemma retired_after_find_by_filename (env : Env) (rid : Z) (name : string)
    (v : bool) (w : World) :
  retired rid (uploads w) ->
  retired rid (uploads (snd (find_by_filename env name v w))).
Proof.
  intros H. exact (retired_after_ops env rid [OpFindByFilename name v] w H).
Qed.

(** A lookup returns a valid row of the table it reads. *)
Lemma find_by_filename_returns_valid (env : Env) (name : string) (v : bool)
    (w : World) (x : Row) :
  fst (find_by_filename env name v w) = Returned (Some x) ->
  In x (uploads w) /\ is_valid x = 1.
Proof.
  rewrite find_by_filename_run.
  destruct (Sql.select_latest_valid _ _) as [r|] eqn:E; [|discriminate].
  apply select_latest_valid_some in E. destruct E as (Hin & _ & Hv & _).
  destruct (v && negb (live env (instant w) (url r))); [discriminate|].
  intros [= <-]. auto.
Qed.

Lemma find_by_hash_returns_valid (env : Env) (h : string) (v : bool)
    (w : World) (x : Row) :
  fst (find_by_hash env h v w) = Returned (Some x) ->
  In x (uploads w) /\ is_valid x = 1.
Proof.
  rewrite find_by_hash_run.
  destruct (Sql.select_latest_valid _ _) as [r|] eqn:E; [|discriminate].
  apply select_latest_valid_some in E. destruct E as (Hin & _ & Hv & _).
  destruct (v && negb (live env (instant w) (url r))); [discriminate|].
  intros [= <-]. auto.
Qed.

Lemma search_uploads_rows_valid (query : string) (limit : Z) (w : World)
    (rows : list Row) (x : Row) :
  fst (search_uploads query limit w) = Returned rows -> In x rows ->
  In x (uploads w) /\ is_valid x = 1.
Proof.
  rewrite search_uploads_run. cbn [fst]. intros [= <-] Hx.
  rewrite limit_is_firstn in Hx. apply in_firstn in Hx.
  apply (Permutation_in _ (order_by_perm _)) in Hx.
  apply filter_In in Hx. destruct Hx as [Hin Hhit]. split; [assumption|].
  destruct (truthy query).
  - apply andb_true_iff in Hhit. now apply Z.eqb_eq.
  - now apply Z.eqb_eq.
Qed.

(** The record resolution returns is a valid row of the table read by
    the lookup that found it, and that table keeps every retired id
    retired. *)
Lemma check_file_in_database_returns_valid (env : Env) (rid : Z)
    (path : string) (w : World) (found : bool) (x : Row) :
  retired rid (uploads w) ->
  fst (check_file_in_database env path w) = Returned (found, Some x) ->
  id x <> rid.
Proof.
  intros Hret. rewrite check_file_in_database_run.
  pose proof (find_by_filename_returns_valid env (basename path) true w)
    as Hname.
  pose proof (retired_after_find_by_filename env rid (basename path) true w
                Hret) as Hret1.
  destruct (find_by_filename env (basename path) true w)
    as [[[r1|]|e] w1]; cbn [fst snd] in *.
  - intros [= _ <-]. destruct (Hname r1 eq_refl) as [Hin Hv].
    now apply (valid_row_not_retired rid (uploads w)).
  - destruct (fs w1 path) as [f|]; [|discriminate].
    destruct (content f) as [b|]; [|discriminate].
    destruct (truthy (sha256_hexdigest env b)); [|discriminate].
    pose proof (find_by_hash_returns_valid env (sha256_hexdigest env b)
                  true w1) as Hhash.
    destruct (find_by_hash env (sha256_hexdigest env b) true w1)
      as [[[r2|]|e] w2]; cbn [fst] in *; try discriminate.
    intros [= _ <-]. destruct (Hhash r2 eq_refl) as [Hin Hv].
    now apply (valid_row_not_retired rid (uploads w1)).
  - discriminate.
Qed.

End Keeping.

(** X15.  No sequence of operations removes or rewrites a row: the table
    never gets shorter, and the row at each position keeps its id, file
    name, URL, hash, upload date and [created_at]. *)
Theorem rows_are_kept_and_keep_their_identity (env : Env) (ops : list Op)
    (w : World) :
  (List.length (uploads w) <= List.length (uploads (run_ops env ops w)))%nat /\
  forall i r, nth_error (uploads w) i = Some r ->
    exists r',
      nth_error (uploads (run_ops env ops w)) i = Some r' /\
      id r' = id r /\ filename r' = filename r /\ url r' = url r /\
      file_hash r' = file_hash r /\ upload_date r' = upload_date r /\
      created_at r' = created_at r.
Proof.
  assert (Hev : evolves (uploads w) (uploads (run_ops env ops w))).
  { apply run_ops_stable.
    - apply evolves_refl.
    - apply evolves_trans.
    - apply evolves_invalidate.
    - apply evolves_verify.
    - intros. apply evolves_insert. }
  split; [now apply evolves_length|].
  intros i r Hnth.
  destruct (evolves_nth _ _ _ _ Hev Hnth) as (r' & Hnth' & Hrow).
  exists r'. unfold row_evolves in Hrow. tauto.
Qed.

(** X16.  In every table built from a new database the ids ascend
    strictly in the order of insertion and start at 1, so no id is used
    twice. *)
Theorem ids_ascend_from_a_new_database (env : Env) (ops : list Op)
    (files : string -> option File) :
  StronglySorted Z.lt
    (map id (uploads (run_ops env ops (fresh_world files)))) /\
  (forall r, In r (uploads (run_ops env ops (fresh_world files))) ->
             1 <= id r) /\
  primary_key (uploads (run_ops env ops (fresh_world files))).
Proof.
  destruct (ids_ascend_preserved env ops (fresh_world files)) as [Hs Hpos].
  { split; [constructor|intros r []]. }
  split; [exact Hs|]. split; [exact Hpos|].
  apply primary_key_preserved. constructor.
Qed.

(** X17.  Once a record has been invalidated, no later lookup returns
    it: after [invalidate_record] on the id of a row of the table and any
    further operations, neither [find_by_filename], [find_by_hash],
    [check_file_in_database] nor [search_uploads] returns a record with
    that id. *)
Theorem invalidated_record_is_never_returned (env : Env) (ops : list Op)
    (w : World) (r : Row) :
  In r (uploads w) ->
  let w1 := run_ops env ops (snd (invalidate_record env (id r) w)) in
  (forall name v x,
     fst (find_by_filename env name v w1) = Returned (Some x) ->
     id x <> id r) /\
  (forall h v x,
     fst (find_by_hash env h v w1) = Returned (Some x) -> id x <> id r) /\
  (forall path found x,
     fst (check_file_in_database env path w1) = Returned (found, Some x) ->
     id x <> id r) /\
  (forall query limit rows x,
     fst (search_uploads query limit w1) = Returned rows -> In x rows ->
     id x <> id r).
Proof.
  intros Hin w1.
  assert (Hret : retired (id r) (uploads w1)).
  { apply retired_after_ops. rewrite invalidate_record_run. cbn [snd uploads].
    split; [|apply invalidated_by_update].
    exists (Sql.set_invalid (current_timestamp env (instant w)) r). split.
    - unfold Sql.update_invalidate. apply in_map_iff. exists r.
      now rewrite Z.eqb_refl.
    - reflexivity. }
  split; [|split; [|split]].
  - intros name v x Hx.
    destruct (find_by_filename_returns_valid env name v w1 x Hx).
    now apply (valid_row_not_retired _ (uploads w1)).
  - intros h v x Hx.
    destruct (find_by_hash_returns_valid env h v w1 x Hx).
    now apply (valid_row_not_retired _ (uploads w1)).
  - intros path found x Hx.
    now apply (check_file_in_database_returns_valid env _ path w1 found x).
  - intros query limit rows x Hrows Hx.
    destruct (search_uploads_rows_valid query limit w1 rows x Hrows Hx).
    now apply (valid_row_not_retired _ (uploads w1)).
Qed.

Lemma invalidated_record_is_never_returned_witness :
  exists x,
    fst (find_by_filename Examples.env_live "photo.png" true
           (run_ops Examples.env_live
              [OpInsert "photo.png" "https://x/2" None None]
              (snd (invalidate_record Examples.env_live 1
                      Examples.one_photo)))) = Returned (Some x) /\
    id x <> 1.
Proof.
  eexists. split; [reflexivity|].
  apply (proj1 (invalidated_record_is_never_returned Examples.env_live
                  [OpInsert "photo.png" "https://x/2" None None]
                  Examples.one_photo
                  (Examples.row 1 "photo.png" "https://x/1" 1 1700000000)
                  (or_introl eq_refl)) "photo.png" true).
  reflexivity.
Defined.

(** ** The sweep in general *)

Section SweepCounts.

Variable env : Env.



Lemma cleanup_loop_live_step (rid : Z) (u : string)
    (rest : list (Z * string)) (count : Z) (w : World) :
  live env (instant w) u = true ->
  cleanup_loop env ((rid, u) :: rest) count w =
  cleanup_loop env rest count
    (mkWorld (uploads w) (sqlite_sequence w) (fs w) (S (instant w))
             (mkProbe rid u true :: probe_log w) (stdout w)).
Proof.
  intros Hlive. cbn [cleanup_loop]. unfold bind at 1.
  rewrite check_url_validity_run. fold (live env (instant w) u).
  rewrite Hlive. reflexivity.
Qed.



(** The loop when every fetched URL is live. *)
Lemma cleanup_loop_all_live (records : list (Z * string)) :
  (forall rid u n, In (rid, u) records -> live env n u = true) ->
  forall (count : Z) (w : World),
    fst (cleanup_loop env records count w) = Returned count /\
    uploads (snd (cleanup_loop env records count w)) = uploads w.
Proof.
  induction records as [|[rid u] rest IH]; intros Hlive count w.
  - split; reflexivity.
  - rewrite cleanup_loop_live_step by (apply (Hlive rid u); now left).
    match goal with
    | |- context [cleanup_loop env rest count ?w1] =>
        destruct (IH (fun r x n H => Hlive r x n (or_intror H)) count w1)
          as [Hres Htab]
    end.
    split; [exact Hres|exact Htab].
Qed.

End SweepCounts.



(** X19.  A sweep that finds every fetched URL live returns 0 and leaves
    the table exactly as it was. *)
Theorem sweep_spares_live_records (env : Env) (batch_size : Z) (w : World) :
  (forall r n, In r (uploads w) -> is_valid r = 1 ->
               live env n (url r) = true) ->
  fst (cleanup_invalid_urls env batch_size w) = Returned 0 /\
  uploads (snd (cleanup_invalid_urls env batch_size w)) = uploads w.
Proof.
  intros Hlive. rewrite cleanup_invalid_urls_run.
  apply cleanup_loop_all_live. intros rid u n Hin.
  apply in_map_iff in Hin. destruct Hin as (r & [= <- <-] & Hin).
  rewrite limit_is_firstn in Hin. apply in_firstn in Hin.
  apply filter_In in Hin. destruct Hin as [Hin Hv].
  apply Hlive; [assumption|now apply Z.eqb_eq].
Qed.

Lemma sweep_spares_live_records_witness :
  fst (cleanup_invalid_urls Examples.env_live 100 Examples.one_photo) =
    Returned 0 /\
  uploads (snd (cleanup_invalid_urls Examples.env_live 100
                  Examples.one_photo)) = uploads Examples.one_photo.
Proof.
  apply (sweep_spares_live_records Examples.env_live 100 Examples.one_photo).
  intros r n _ _. reflexivity.
Defined.

(** ** Resolution, once more *)

Section ResolveSound.

Variable env : Env.

(** One validated lookup, read for what it found. *)
Lemma lookup_stage (key : Row -> bool) (w : World)
    (out : Exc (option Row) * World) (after : World -> World) :
  (forall w0, probe_log (after w0) = probe_log w0) ->
  out =
  match Sql.select_latest_valid key (uploads w) with
  | None => (Returned None, w)
  | Some r =>
      if true && negb (live env (instant w) (url r)) then
        (Returned None,
         snd (invalidate_record env (id r) (probed r false w)))
      else (Returned (Some r), after (probed r true w))
  end ->
  exists o new,
    fst out = Returned o /\
    probe_log (snd out) = (new ++ probe_log w)%list /\
    (List.length new <= 1)%nat /\
    match o with
    | Some x => confirmed_match key (uploads w) new x
    | None =>
        forall x, In x (uploads (snd out)) -> is_valid x = 1 ->
                  In x (uploads w)
    end.
Proof.
  intros Hafter ->.
  destruct (Sql.select_latest_valid key (uploads w)) as [r|] eqn:E.
  - apply select_latest_valid_some in E. destruct E as (Hin & Hk & Hv & _).
    destruct (live env (instant w) (url r)); cbn [andb negb fst snd].
    + exists (Some r), [mkProbe (id r) (url r) true].
      rewrite Hafter. cbn [probe_log probed app List.length].
      split; [reflexivity|]. split; [reflexivity|]. split; [lia|].
      unfold confirmed_match. repeat split; auto. now left.
    + exists None, [mkProbe (id r) (url r) false].
      rewrite invalidate_record_run.
      cbn [snd probe_log probed app List.length uploads].
      split; [reflexivity|]. split; [reflexivity|]. split; [lia|].
      intros x Hx Hvx. unfold Sql.update_invalidate in Hx.
      apply in_map_iff in Hx. destruct Hx as (x0 & <- & Hx0).
      destruct (id x0 =? id r); [discriminate Hvx|assumption].
  - exists None, []. cbn. split; [reflexivity|]. split; [reflexivity|].
    split; [lia|auto].
Qed.

End ResolveSound.

(** X20.  [check_file_in_database] never raises, makes at most two
    probes, and answers found exactly when it returns a record.  The
    record it returns is a valid row of the table it was given, confirmed
    live by a probe of this call, and it matches the file: either its file
    name is the final component of the path, or its hash is the SHA-256
    digest of the bytes of the file at the path. *)
Theorem resolve_returns_a_confirmed_match (env : Env) (path : string)
    (w : World) :
  exists found rec new,
    fst (check_file_in_database env path w) = Returned (found, rec) /\
    probe_log (snd (check_file_in_database env path w)) =
      (new ++ probe_log w)%list /\
    (List.length new <= 2)%nat /\
    match rec with
    | Some x =>
        found = true /\ In x (uploads w) /\ is_valid x = 1 /\
        In (mkProbe (id x) (url x) true) new /\
        (filename x = basename path \/
         exists f b, fs w path = Some f /\ content f = Some b /\
                     file_hash x = Some (sha256_hexdigest env b))
    | None => found = false
    end.
Proof.
  rewrite check_file_in_database_run.
  destruct (lookup_stage env (Sql.filename_is (basename path)) w
              (find_by_filename env (basename path) true w)
              (fun w0 => verified env
                 match Sql.select_latest_valid
                         (Sql.filename_is (basename path)) (uploads w) with
                 | Some r => id r
                 | None => 0
                 end w0))
    as (o1 & new1 & Ho1 & Hlog1 & Hlen1 & Hfound1).
  { reflexivity. }
  { rewrite find_by_filename_run.
    destruct (Sql.select_latest_valid _ _); reflexivity. }
  destruct (find_by_filename_frame env (basename path) true w)
    as (Hfs1 & _ & _).
  destruct (find_by_filename env (basename path) true w) as [res1 w1].
  cbn [fst snd] in *. subst res1. destruct o1 as [x|].
  - destruct Hfound1 as (Hin & Hv & Hk & Hev).
    exists true, (Some x), new1. cbn [fst snd].
    split; [reflexivity|]. split; [assumption|]. split; [lia|].
    repeat split; auto. left. now apply filename_is_true.
  - assert (Hmiss : exists found rec new,
               @Returned (bool * option Row) (false, None) =
                 Returned (found, rec) /\
               probe_log w1 = (new ++ probe_log w)%list /\
               (List.length new <= 2)%nat /\
               match rec with
               | Some x =>
                   found = true /\ In x (uploads w) /\ is_valid x = 1 /\
                   In (mkProbe (id x) (url x) true) new /\
                   (filename x = basename path \/
                    exists f b, fs w path = Some f /\ content f = Some b /\
                                file_hash x = Some (sha256_hexdigest env b))
               | None => found = false
               end).
    { exists false, None, new1. repeat split; auto; lia. }
    rewrite Hfs1.
    destruct (fs w path) as [f|] eqn:Ef; [|exact Hmiss].
    destruct (content f) as [b|] eqn:Ec; [|exact Hmiss].
    destruct (truthy (sha256_hexdigest env b)); [|exact Hmiss].
    clear Hmiss.
    destruct (lookup_stage env (Sql.file_hash_is (sha256_hexdigest env b)) w1
                (find_by_hash env (sha256_hexdigest env b) true w1)
                (fun w0 => w0))
      as (o2 & new2 & Ho2 & Hlog2 & Hlen2 & Hfound2).
    { reflexivity. }
    { apply find_by_hash_run. }
    destruct (find_by_hash env (sha256_hexdigest env b) true w1)
      as [res2 w2].
    cbn [fst snd] in *. subst res2. destruct o2 as [x|].
    + destruct Hfound2 as (Hin & Hv & Hk & Hev).
      exists true, (Some x), (new2 ++ new1)%list. cbn [fst snd print].
      cbn [probe_log].
      split; [reflexivity|].
      split; [rewrite Hlog2, Hlog1; apply app_assoc|].
      split; [rewrite length_app; lia|].
      split; [reflexivity|]. split; [now apply Hfound1|].
      split; [assumption|].
      split; [apply in_or_app; now left|].
      right. exists f, b. split; [reflexivity|]. split; [exact Ec|].
      now apply file_hash_is_true.
    + exists false, None, (new2 ++ new1)%list. cbn [fst snd].
      split; [reflexivity|].
      split; [rewrite Hlog2, Hlog1; apply app_assoc|].
      split; [rewrite length_app; lia|reflexivity].
Qed.

(** ** The upload wrapper, path by path *)

Section WrapperPaths.

Variable env : Env.

(** The wrapper once the file and the script are found and the duplicate
    check has answered. *)
Lemma wrapper_after_check (argv : list string) (path : string)
    (w w1 : World) (f g : File) (res : bool * option Row) :
  fs w path = Some f ->
  fs w LOCAL_FAL_UPLOAD_SCRIPT = Some g ->
  check_file_in_database env path
    (snd (print (InfoDupCheck (basename path)) w)) = (Returned res, w1) ->
  upload_with_database_wrapper env argv path w =
  match res with
  | (true, Some r) =>
      if force_upload argv then
        upload_new env (basename path) path
          (printed [InfoForceUpload;
                    SuccessAlreadyRegistered (filename r) (url r)] w1)
      else
        (Returned (Some (url r)),
         printed [UseExisting (url r);
                  SuccessAlreadyRegistered (filename r) (url r)] w1)
  | _ => upload_new env (basename path) path w1
  end.
Proof.
  intros Hfs Hscript Hcheck.
  unfold upload_with_database_wrapper, bind at 1, os_path_exists.
  rewrite Hfs. cbn [negb]. unfold bind at 1. rewrite Hscript. cbn [negb].
  unfold bind at 1, init_database, ret at 1. unfold bind at 1.
  change (print (InfoDupCheck (basename path)) w)
    with (Returned tt, snd (print (InfoDupCheck (basename path)) w)).
  cbv iota. unfold bind at 1. rewrite Hcheck.
  destruct res as [[|] [r|]]; try reflexivity.
  destruct (force_upload argv); reflexivity.
Qed.

(** The upload proper when the uploader gives no URL. *)
Lemma upload_new_without_url (name path : string) (w : World) (f : File)
    (n : Z) :
  fs w path = Some f -> st_size f = Some n ->
  (forall u, uploader env (instant w) path = Some u -> u = "") ->
  upload_new env name path w =
  (Returned None,
   mkWorld (uploads w) (sqlite_sequence w) (fs w) (S (instant w))
           (probe_log w) (InfoRunning :: InfoTarget path n :: stdout w)).
Proof.
  intros Hfs Hsize Hnone.
  unfold upload_new, bind at 1, os_path_getsize. rewrite Hfs, Hsize.
  unfold bind at 1, print at 1. unfold bind at 1, print at 1.
  unfold bind at 1, run_local_fal_upload, bind at 1, tick. cbn [instant].
  destruct (uploader env (instant w) path) as [u|] eqn:E; [|reflexivity].
  rewrite (Hnone u eq_refl). reflexivity.
Qed.

(** The upload proper when the uploader gives a URL and the INSERT
    succeeds. *)
Lemma upload_new_registered (name path u : string) (w : World) (f : File)
    (n : Z) :
  fs w path = Some f -> st_size f = Some n ->
  uploader env (instant w) path = Some u -> truthy u = true ->
  insert_fault env (S (S (S (instant w)))) = None ->
  exists new w',
    upload_new env name path w = (Returned (Some u), w') /\
    uploads w' = (uploads w ++ [new])%list /\
    filename new = name /\ url new = u /\ file_path new = Some path /\
    is_valid new = 1 /\ stored_size_hash env (fs w) (Some path) new /\
    hd_error (stdout w') = Some (SuccessRegistered (id new)) /\
    fs w' = fs w.
Proof.
  intros Hfs Hsize Hup Hu Hok.
  unfold upload_new, bind at 1, os_path_getsize. rewrite Hfs, Hsize.
  unfold bind at 1, print at 1. unfold bind at 1, print at 1.
  unfold bind at 1, run_local_fal_upload, bind at 1, tick. cbn [instant].
  rewrite Hup, Hu. unfold ret at 1. rewrite Hu.
  unfold bind at 1, print at 1. unfold bind at 1, register_upload.
  unfold bind at 1, print at 1. unfold try_except, bind at 1.
  cbn [uploads sqlite_sequence fs instant probe_log stdout].
  match goal with
  | |- context [insert_upload env name u (Some path) None ?w0] =>
      destruct (size_and_hash_cases env (Some path) w0)
        as (size & hash & Hs & Hstored);
      destruct (insert_upload_run env name u (Some path) None w0)
        as (size' & hash' & Hs' & Hrun)
  end.
  rewrite Hs in Hs'. injection Hs' as <- <-.
  cbn [uploads sqlite_sequence fs instant probe_log stdout] in Hrun.
  rewrite Hrun, Hok.
  cbn [fs] in Hstored.
  eexists. eexists. split; [reflexivity|]. cbn [uploads snd print stdout].
  split; [reflexivity|].
  split; [reflexivity|]. split; [reflexivity|]. split; [reflexivity|].
  split; [reflexivity|].
  split; [apply Hstored; reflexivity|]. split; reflexivity.
Qed.

Lemma wrapper_missing_file (argv : list string) (path : string)
    (w : World) :
  fs w path = None ->
  upload_with_database_wrapper env argv path w =
  (Returned None, printed [ErrFileNotFound path] w).
Proof.
  intros Hfs. unfold upload_with_database_wrapper, bind at 1, os_path_exists.
  rewrite Hfs. reflexivity.
Qed.

Lemma wrapper_missing_script (argv : list string) (path : string)
    (w : World) (f : File) :
  fs w path = Some f -> fs w LOCAL_FAL_UPLOAD_SCRIPT = None ->
  upload_with_database_wrapper env argv path w =
  (Returned None, printed [ErrScriptNotFound] w).
Proof.
  intros Hfs Hscript.
  unfold upload_with_database_wrapper, bind at 1, os_path_exists.
  rewrite Hfs. cbn [negb]. unfold bind at 1. rewrite Hscript. reflexivity.
Qed.

(** The wrapper when the duplicate check finds a record and
    [--force-upload] is not given. *)
Lemma wrapper_reuses_existing (argv : list string) (path : string)
    (w w1 : World) (f g : File) (r : Row) :
  fs w path = Some f ->
  fs w LOCAL_FAL_UPLOAD_SCRIPT = Some g ->
  check_file_in_database env path
    (snd (print (InfoDupCheck (basename path)) w)) =
    (Returned (true, Some r), w1) ->
  force_upload argv = false ->
  upload_with_database_wrapper env argv path w =
  (Returned (Some (url r)),
   printed [UseExisting (url r);
            SuccessAlreadyRegistered (filename r) (url r)] w1).
Proof.
  intros Hfs Hscript Hcheck Hforce.
  rewrite (wrapper_after_check argv path w w1 f g _ Hfs Hscript Hcheck).
  rewrite Hforce. reflexivity.
Qed.

End WrapperPaths.

(** X21.  [upload_with_database_wrapper] gives up before it touches the
    database or the uploader when the file, or else the uploader script,
    is missing: it returns [None], prints the error, and the table, the
    instant and the probe history are as they were. *)
Theorem wrapper_refuses_without_file_or_script (env : Env)
    (argv : list string) (path : string) (w : World) :
  fs w path = None \/ fs w LOCAL_FAL_UPLOAD_SCRIPT = None ->
  let out := upload_with_database_wrapper env argv path w in
  fst out = Returned None /\
  uploads (snd out) = uploads w /\ instant (snd out) = instant w /\
  probe_log (snd out) = probe_log w /\
  exists msg, stdout (snd out) = msg :: stdout w /\
              (msg = ErrFileNotFound path \/ msg = ErrScriptNotFound).
Proof.
  intros H out. unfold out.
  destruct (fs w path) as [f|] eqn:Ef.
  - destruct H as [H|H]; [discriminate|].
    rewrite (wrapper_missing_script env argv path w f Ef H).
    cbn. repeat split. eauto.
  - rewrite (wrapper_missing_file env argv path w Ef).
    cbn. repeat split. eauto.
Qed.

Lemma wrapper_refuses_without_file_or_script_witness :
  fst (upload_with_database_wrapper Examples.env_live [] "/tmp/none.png"
         Examples.one_photo) = Returned None /\
  uploads (snd (upload_with_database_wrapper Examples.env_live []
                  "/tmp/none.png" Examples.one_photo)) =
    uploads Examples.one_photo.
Proof.
  destruct (wrapper_refuses_without_file_or_script Examples.env_live []
              "/tmp/none.png" Examples.one_photo (or_introl eq_refl))
    as (Hres & Htab & _).
  split; [exact Hres|exact Htab].
Defined.

(** X22.  When the duplicate check finds a record and [--force-upload]
    is not given, [upload_with_database_wrapper] returns the URL of that
    record and neither runs the uploader nor writes to the table: the
    world is the one the check left, with two more lines printed. *)
Theorem wrapper_reuses_the_found_url (env : Env) (argv : list string)
    (path : string) (w w1 : World) (f g : File) (r : Row) :
  fs w path = Some f ->
  fs w LOCAL_FAL_UPLOAD_SCRIPT = Some g ->
  check_file_in_database env path
    (snd (print (InfoDupCheck (basename path)) w)) =
    (Returned (true, Some r), w1) ->
  force_upload argv = false ->
  upload_with_database_wrapper env argv path w =
  (Returned (Some (url r)),
   printed [UseExisting (url r);
            SuccessAlreadyRegistered (filename r) (url r)] w1).
Proof.
  intros Hfs Hscript Hcheck Hforce.
  now apply (wrapper_reuses_existing env argv path w w1 f g r).
Qed.

Lemma wrapper_reuses_the_found_url_witness :
  fst (upload_with_database_wrapper Examples.env_live [] "/tmp/photo.png"
         Cases.photo_on_disk) = Returned (Some "https://x/1").
Proof.
  rewrite (wrapper_reuses_the_found_url Examples.env_live []
             "/tmp/photo.png" Cases.photo_on_disk
             (snd (check_file_in_database Examples.env_live "/tmp/photo.png"
                     (snd (print (InfoDupCheck "photo.png")
                             Cases.photo_on_disk))))
             Examples.photo Examples.photo
             (Examples.row 1 "photo.png" "https://x/1" 1 1700000000)
             eq_refl eq_refl eq_refl eq_refl).
  reflexivity.
Defined.

(** X23.  When the wrapper goes on to upload (the duplicate check found
    nothing, or [--force-upload] is given) and the uploader gives no URL
    or an empty one, it returns [None] and inserts nothing. *)
Theorem wrapper_fails_when_uploader_gives_no_url (env : Env)
    (argv : list string) (path : string) (w w1 : World) (f g : File)
    (n : Z) (res : bool * option Row) :
  fs w path = Some f -> st_size f = Some n ->
  fs w LOCAL_FAL_UPLOAD_SCRIPT = Some g ->
  check_file_in_database env path
    (snd (print (InfoDupCheck (basename path)) w)) = (Returned res, w1) ->
  fst res = false \/ force_upload argv = true ->
  (forall u, uploader env (instant w1) path = Some u -> u = "") ->
  fst (upload_with_database_wrapper env argv path w) = Returned None /\
  uploads (snd (upload_with_database_wrapper env argv path w)) = uploads w1.
Proof.
  intros Hfs Hsize Hscript Hcheck Hgo Hnone.
  assert (Hfs1 : fs w1 path = Some f).
  { pose proof (check_file_in_database_frame env path
                  (snd (print (InfoDupCheck (basename path)) w))) as [H _].
    rewrite Hcheck in H. simpl in H. now rewrite H. }
  rewrite (wrapper_after_check env argv path w w1 f g _ Hfs Hscript Hcheck).
  destruct res as [[|] [r|]]; cbn [fst] in Hgo.
  - destruct Hgo as [Hgo|Hgo]; [discriminate|]. rewrite Hgo.
    rewrite (upload_new_without_url env _ path _ f n); auto.
  - rewrite (upload_new_without_url env _ path _ f n); auto.
  - rewrite (upload_new_without_url env _ path _ f n); auto.
  - rewrite (upload_new_without_url env _ path _ f n); auto.
Qed.

Lemma wrapper_fails_when_uploader_gives_no_url_witness :
  fst (upload_with_database_wrapper Cases.env_no_upload [] "/tmp/photo.png"
         (fresh_world Cases.disk)) = Returned None /\
  uploads (snd (upload_with_database_wrapper Cases.env_no_upload []
                  "/tmp/photo.png" (fresh_world Cases.disk))) = [].
Proof.
  apply (wrapper_fails_when_uploader_gives_no_url Cases.env_no_upload []
           "/tmp/photo.png" (fresh_world Cases.disk)
           (snd (check_file_in_database Cases.env_no_upload "/tmp/photo.png"
                   (snd (print (InfoDupCheck "photo.png")
                           (fresh_world Cases.disk)))))
           Examples.photo Examples.photo 3 (false, None));
    try reflexivity.
  - now left.
  - intros u [=].
Defined.

(** X24.  When the wrapper goes on to upload, the uploader gives the
    non-empty URL [u] and the INSERT succeeds, the wrapper returns [u] and
    has appended one valid row to the table the duplicate check left: its
    file name is the final component of the path, its URL is [u], its path
    is the path given, and its size and hash are those of the file. *)
Theorem wrapper_registers_the_upload (env : Env) (argv : list string)
    (path u : string) (w w1 : World) (f g : File) (n : Z)
    (res : bool * option Row) :
  fs w path = Some f -> st_size f = Some n ->
  fs w LOCAL_FAL_UPLOAD_SCRIPT = Some g ->
  check_file_in_database env path
    (snd (print (InfoDupCheck (basename path)) w)) = (Returned res, w1) ->
  fst res = false \/ force_upload argv = true ->
  uploader env (instant w1) path = Some u -> truthy u = true ->
  insert_fault env (3 + instant w1) = None ->
  exists new w',
    upload_with_database_wrapper env argv path w = (Returned (Some u), w') /\
    uploads w' = (uploads w1 ++ [new])%list /\
    filename new = basename path /\ url new = u /\
    file_path new = Some path /\ is_valid new = 1 /\
    stored_size_hash env (fs w) (Some path) new.
Proof.
  intros Hfs Hsize Hscript Hcheck Hgo Hup Hu Hok.
  assert (Hfs1 : fs w1 = fs w).
  { pose proof (check_file_in_database_frame env path
                  (snd (print (InfoDupCheck (basename path)) w))) as [H _].
    rewrite Hcheck in H. exact H. }
  rewrite (wrapper_after_check env argv path w w1 f g _ Hfs Hscript Hcheck).
  rewrite <- Hfs1 in Hfs |- *.
  assert (Hnew : forall w0,
             fs w0 = fs w1 -> instant w0 = instant w1 ->
             uploads w0 = uploads w1 ->
             exists new w',
               upload_new env (basename path) path w0 =
                 (Returned (Some u), w') /\
               uploads w' = (uploads w1 ++ [new])%list /\
               filename new = basename path /\ url new = u /\
               file_path new = Some path /\ is_valid new = 1 /\
               stored_size_hash env (fs w1) (Some path) new).
  { intros w0 Hfs0 Hi0 Hu0.
    destruct (upload_new_registered env (basename path) path u w0 f n)
      as (new & w' & Hrun & Htab & H1 & H2 & H3 & H4 & H5 & _);
      try (rewrite ?Hfs0, ?Hi0; assumption).
    exists new, w'. rewrite <- Hu0, <- Hfs0. repeat split; auto. }
  destruct res as [[|] [r|]]; cbn [fst] in Hgo.
  - destruct Hgo as [Hgo|Hgo]; [discriminate|]. rewrite Hgo.
    apply Hnew; reflexivity.
  - apply Hnew; reflexivity.
  - apply Hnew; reflexivity.
  - apply Hnew; reflexivity.
Qed.

Lemma wrapper_registers_the_upload_witness :
  exists new w',
    upload_with_database_wrapper Cases.env_legacy [] "/tmp/photo.png"
      (fresh_world Cases.disk) = (Returned (Some "https://x/new"), w') /\
    uploads w' = [new] /\
    filename new = "photo.png" /\ url new = "https://x/new" /\
    file_path new = Some "/tmp/photo.png" /\ is_valid new = 1 /\
    file_size new = Some 3 /\ file_hash new = Some "9f86d081884c7d65".
Proof.
  destruct (wrapper_registers_the_upload Cases.env_legacy []
              "/tmp/photo.png" "https://x/new" (fresh_world Cases.disk)
              (snd (check_file_in_database Cases.env_legacy "/tmp/photo.png"
                      (snd (print (InfoDupCheck "photo.png")
                              (fresh_world Cases.disk)))))
              Examples.photo Examples.photo 3 (false, None)
              eq_refl eq_refl eq_refl eq_refl (or_introl eq_refl)
              eq_refl eq_refl eq_refl)
    as (new & w' & Hrun & Htab & H1 & H2 & H3 & H4 & H5).
  exists new, w'. repeat (split; [assumption|]). exact H5.
Defined.

(** ** Exceptions of the import, the refresh, and uploading twice *)

Section Composition.

Variable env : Env.

(** A [try] whose handler cannot raise lets through only what it does
    not catch. *)
Lemma try_except_escapes {A : Type} (body : M A) (catches : exn -> bool)
    (handler : exn -> M A) (w : World) (e : exn) :
  (forall e' w', exists a, fst (handler e' w') = Returned a) ->
  fst (try_except body catches handler w) = Raised e ->
  catches e = false.
Proof.
  intros Hh. unfold try_except.
  destruct (body w) as [[a|e'] w']; [discriminate|].
  destruct (catches e') eqn:Hc.
  - destruct (Hh e' w') as (a & Ha). rewrite Ha. discriminate.
  - cbn [fst]. now intros [= <-].
Qed.

Lemma update_last_verified_nth (rid now ts : Z) (t : list Row) (i : nat) :
  nth_error (Sql.update_last_verified rid now ts t) i =
  option_map (fun r => if id r =? rid then Sql.set_verified now ts r else r)
             (nth_error t i).
Proof. unfold Sql.update_last_verified. apply nth_error_map. Qed.

(** Resolution when neither the file name nor the hash has a valid row:
    nothing is probed and nothing changes. *)
Lemma check_file_in_database_unknown (path : string) (w : World) (f : File)
    (b : list byte) :
  fs w path = Some f -> content f = Some b ->
  no_valid_match (Sql.filename_is (basename path)) (uploads w) ->
  no_valid_match (Sql.file_hash_is (sha256_hexdigest env b)) (uploads w) ->
  check_file_in_database env path w = (Returned (false, None), w).
Proof.
  intros Hfs Hc Hname Hhash.
  apply select_latest_valid_none in Hname, Hhash.
  rewrite check_file_in_database_run, find_by_filename_run, Hname, Hfs, Hc.
  destruct (truthy (sha256_hexdigest env b)); [|reflexivity].
  rewrite find_by_hash_run, Hhash. reflexivity.
Qed.

End Composition.

(** X25.  No [Exception] escapes [migrate_from_json]: whatever the file
    system, the parser and the INSERTs do, an exception it raises is not
    an [Exception] (in this model, a [KeyboardInterrupt]). *)
Theorem migrate_from_json_lets_no_exception_escape (env : Env)
    (path : string) (w : World) (e : exn) :
  fst (migrate_from_json env path w) = Raised e -> is_Exception e = false.
Proof.
  unfold migrate_from_json, bind at 1, os_path_exists.
  destruct (fs w path) as [f|]; cbn [negb]; [|discriminate].
  apply try_except_escapes. intros e' w'. exists 0. reflexivity.
Qed.

Lemma migrate_from_json_lets_no_exception_escape_witness :
  is_Exception KeyboardInterrupt = false.
Proof.
  apply (migrate_from_json_lets_no_exception_escape
           (mkEnv (fun _ _ _ => Returned 200) (fun _ => 0) (fun _ => 0)
                  (fun _ => "9f86d081884c7d65") (fun _ => None)
                  (fun _ _ => None) (fun _ => Raised KeyboardInterrupt))
           "legacy.json" Cases.photo_on_disk KeyboardInterrupt).
  reflexivity.
Defined.

(** X26.  A [find_by_filename] that returns a record returns the row as
    it was read, and refreshes [last_verified] and [updated_at] of the
    rows with that id only: every other row is left as it is, and in the
    refreshed rows every other column, [is_valid] included, is kept. *)
Theorem find_by_filename_refreshes_only_the_found_row (env : Env)
    (name : string) (v : bool) (w : World) (r : Row) :
  fst (find_by_filename env name v w) = Returned (Some r) ->
  In r (uploads w) /\
  exists now,
    forall i x, nth_error (uploads w) i = Some x ->
      exists x',
        nth_error (uploads (snd (find_by_filename env name v w))) i =
          Some x' /\
        (id x <> id r -> x' = x) /\
        (id x = id r ->
         last_verified x' = Some now /\ is_valid x' = is_valid x /\
         id x' = id x /\ filename x' = filename x /\ url x' = url x /\
         file_path x' = file_path x /\ file_size x' = file_size x /\
         file_hash x' = file_hash x /\ upload_date x' = upload_date x /\
         metadata x' = metadata x /\ created_at x' = created_at x).
Proof.
  rewrite find_by_filename_run.
  destruct (Sql.select_latest_valid _ _) as [c|] eqn:E; [|discriminate].
  apply select_latest_valid_some in E. destruct E as (Hin & _).
  destruct (v && negb (live env (instant w) (url c))); [discriminate|].
  cbn [fst snd]. intros [= <-]. split; [assumption|].
  eexists. intros i x Hnth. cbn [uploads verified].
  assert (Htab : uploads (if v then probed c true w else w) = uploads w)
    by (destruct v; reflexivity).
  rewrite Htab, update_last_verified_nth, Hnth. cbn [option_map].
  eexists. split; [reflexivity|].
  destruct (Z.eqb_spec (id x) (id c)) as [Eid|Eid].
  - split; [intros H; contradiction|]. intros _. cbn.
    split; [reflexivity|]. repeat split.
  - split; [reflexivity|intros H; contradiction].
Qed.

Lemma find_by_filename_refreshes_only_the_found_row_witness :
  In (Examples.row 1 "photo.png" "https://x/1" 1 1700000000)
     (uploads Examples.one_photo).
Proof.
  apply (proj1 (find_by_filename_refreshes_only_the_found_row
                  Examples.env_live "photo.png" true Examples.one_photo
                  (Examples.row 1 "photo.png" "https://x/1" 1 1700000000)
                  eq_refl)).
Defined.

(** X27.  Uploading the same file twice uploads it once.  Take a file
    that can be sized and read, whose name and whose hash have no valid
    row, and a run without [--force-upload] in which the uploader returns
    the non-empty URL [u] and the INSERT succeeds.  The wrapper returns
    [u] and leaves a table one row longer; run again on the world it left,
    with [u] answering the probe, it returns [u] again and adds no row. *)
Theorem uploading_twice_uploads_once (env : Env) (argv : list string)
    (path u : string) (w : World) (f g : File) (n : Z) (b : list byte) :
  fs w path = Some f -> st_size f = Some n -> content f = Some b ->
  fs w LOCAL_FAL_UPLOAD_SCRIPT = Some g ->
  force_upload argv = false ->
  no_valid_match (Sql.filename_is (basename path)) (uploads w) ->
  no_valid_match (Sql.file_hash_is (sha256_hexdigest env b)) (uploads w) ->
  uploader env (instant w) path = Some u -> truthy u = true ->
  insert_fault env (3 + instant w) = None ->
  (forall k, live env k u = true) ->
  exists w1 w2,
    upload_with_database_wrapper env argv path w = (Returned (Some u), w1) /\
    List.length (uploads w1) = S (List.length (uploads w)) /\
    upload_with_database_wrapper env argv path w1 = (Returned (Some u), w2) /\
    List.length (uploads w2) = List.length (uploads w1).
Proof.
  intros Hfs Hsize Hc Hscript Hforce Hname Hhash Hup Hu Hok Hlive.
  set (w0 := snd (print (InfoDupCheck (basename path)) w)).
  assert (Hcheck : check_file_in_database env path w0 =
                   (Returned (false, None), w0))
    by (now apply (check_file_in_database_unknown env path w0 f b)).
  rewrite (wrapper_after_check env argv path w w0 f g _ Hfs Hscript Hcheck).
  destruct (upload_new_registered env (basename path) path u w0 f n
              Hfs Hsize Hup Hu Hok)
    as (new & w1 & Hrun & Htab & Hfn & Hurl & _ & Hv & _ & _ & Hfs1).
  cbn [w0 print snd fs] in Hfs1.
  exists w1.
  set (w1' := snd (print (InfoDupCheck (basename path)) w1)).
  assert (Hsel : Sql.select_latest_valid (Sql.filename_is (basename path))
                   (uploads w1') = Some new).
  { cbn [w1' print snd uploads]. rewrite Htab.
    apply select_latest_valid_strict.
    - apply in_or_app. right. now left.
    - now apply filename_is_true.
    - assumption.
    - intros r' Hin' Hk' Hv'. apply in_app_or in Hin'.
      destruct Hin' as [Hin'|[<-|[]]]; [|now left].
      cbn [w0 print snd uploads] in Hin'.
      now destruct (Hname r' Hin' Hk'). }
  assert (Hcheck1 : check_file_in_database env path w1' =
                    (Returned (true, Some new),
                     verified env (id new) (probed new true w1'))).
  { apply resolve_by_filename_live; [exact Hsel|].
    rewrite Hurl. apply Hlive. }
  eexists. split; [exact Hrun|].
  split; [rewrite Htab, length_app; cbn; lia|].
  rewrite (wrapper_reuses_existing env argv path w1
             (verified env (id new) (probed new true w1')) f g new);
    [| now rewrite Hfs1 | now rewrite Hfs1 | exact Hcheck1 | exact Hforce].
  rewrite Hurl. split; [reflexivity|].
  cbn [printed uploads verified probed w1' print snd].
  unfold Sql.update_last_verified. apply length_map.
Qed.

Lemma uploading_twice_uploads_once_witness :
  exists w1 w2,
    upload_with_database_wrapper Cases.env_legacy [] "/tmp/photo.png"
      (fresh_world Cases.disk) = (Returned (Some "https://x/new"), w1) /\
    List.length (uploads w1) = 1%nat /\
    upload_with_database_wrapper Cases.env_legacy [] "/tmp/photo.png" w1 =
      (Returned (Some "https://x/new"), w2) /\
    List.length (uploads w2) = List.length (uploads w1).
Proof.
  apply (uploading_twice_uploads_once Cases.env_legacy [] "/tmp/photo.png"
           "https://x/new" (fresh_world Cases.disk) Examples.photo
           Examples.photo 3 [x01; x02; x03]);
    try reflexivity; intros r [].
Defined.
